(** * Memory-metrics pipeline: collector, store and readers

    A shallow embedding of [collector.py], [metrics_store.py],
    [db_readers.py], [advisor_summary.py] and [process_actions.py], followed
    by the properties of the sampling, parsing, persistence and aggregation
    pipeline, of the advisor summary and of process termination.

    Python integers are [Z]; Python floats are IEEE binary64 values carried
    as the exact rational they denote; [str] is [string] restricted to ASCII
    text, which is what the sysctl and vm_stat commands print; a [dict] read
    by key is a [gmap]; an exception is a value of [pyexc] carried by the
    [res] monad. *)

From Stdlib Require Import ZArith QArith Qround Qpower Qabs Lia Lqa.
From Stdlib Require Import Ascii String List Sorted Permutation.
From Stdlib Require Import DecimalString DecimalZ.
From stdpp Require Import gmap strings list sorting.

Local Open Scope Z_scope.

(** ** Exceptions and the result monad *)

Module Py.

Inductive pyexc : Type :=
| ValueError
| OverflowError
| KeyError
| FileNotFoundError
| CalledProcessError
| SqliteError
| RuntimeError
| KeyboardInterrupt.

(** [except Exception] catches every class below except the ones deriving
    from [BaseException] only. *)
Definition is_Exception (e : pyexc) : bool :=
  match e with
  | KeyboardInterrupt => false
  | _ => true
  end.

Inductive res (A : Type) : Type :=
| Ok (a : A)
| Raise (e : pyexc).
Arguments Ok {A} a.
Arguments Raise {A} e.

#[export] Instance res_ret : MRet res := fun _ a => Ok a.
#[export] Instance res_bind : MBind res := fun _ _ f m =>
  match m with
  | Ok a => f a
  | Raise e => Raise e
  end.

(** a result that [except Exception] would catch if it is an error *)
Definition catchable {A} (r : res A) : Prop :=
  match r with
  | Ok _ => True
  | Raise e => is_Exception e = true
  end.

End Py.
Export Py.

(** ** binary64 arithmetic

    A finite float is the rational it denotes.  [round_float] is rounding to
    nearest, ties to even, with 53 significant bits, a least exponent of
    -1074 (so subnormals are covered) and overflow to infinity at 2^1024.
    The sign of zero is not kept: the program only passes floats to [int()],
    [<] and [*], none of which observes it. *)

Module PyFloat.
Local Open Scope Q_scope.

Inductive pyfloat : Type :=
| Finite (q : Q)
| Inf (negative : bool)
| NaN.

(** floor of the base-2 logarithm of a positive rational *)
Definition Qlog2 (x : Q) : Z :=
  let d := (Z.log2 (Qnum x) - Z.log2 (Zpos (Qden x)))%Z in
  if Qle_bool (2 ^ d) x then d else (d - 1)%Z.

(** nearest integer, ties to even *)
Definition rne (y : Q) : Z :=
  let k := Qfloor y in
  match Qcompare (y - inject_Z k) (1 # 2) with
  | Lt => k
  | Gt => (k + 1)%Z
  | Eq => if Z.even k then k else (k + 1)%Z
  end.

(** exponent of the unit in the last place of [x] *)
Definition fexp (x : Q) : Z := Z.max (Qlog2 (Qabs x) - 52) (-1074).

Definition round_val (x : Q) : Q :=
  inject_Z (rne (x / 2 ^ fexp x)) * 2 ^ fexp x.

Definition round_float (x : Q) : pyfloat :=
  if Qeq_bool x 0 then Finite 0
  else
    let v := round_val x in
    if Qle_bool (2 ^ 1024) (Qabs v) then Inf (negb (Qle_bool 0 x)) else Finite v.

Definition representable (a : Q) : Prop :=
  exists m e : Z, (Z.abs m < 2 ^ 53)%Z /\ (-1074 <= e)%Z /\ a == inject_Z m * 2 ^ e.

Definition Qlt_bool (x y : Q) : bool := negb (Qle_bool y x).

(** [float * float] *)
Definition fmul (a b : pyfloat) : pyfloat :=
  match a, b with
  | NaN, _ | _, NaN => NaN
  | Finite x, Finite y => round_float (x * y)
  | Inf s, Finite y | Finite y, Inf s =>
      if Qeq_bool y 0 then NaN else Inf (xorb s (Qlt_bool y 0))
  | Inf s, Inf s' => Inf (xorb s s')
  end.

(** [float(n)] for an [int]: "int too large to convert to float" *)
Definition float_of_int (n : Z) : res pyfloat :=
  match round_float (inject_Z n) with
  | Inf _ => Raise OverflowError
  | f => Ok f
  end.

(** [c * n] for a float [c] and an int [n] *)
Definition fmul_int (c : pyfloat) (n : Z) : res pyfloat :=
  f ← float_of_int n; mret (fmul c f).

(** [int(x)]: truncation toward zero *)
Definition int_of_float (x : pyfloat) : res Z :=
  match x with
  | Finite q => Ok (Z.quot (Qnum q) (Zpos (Qden q)))
  | Inf _ => Raise OverflowError
  | NaN => Raise ValueError
  end.

(** [n < x] for an int [n] and a float [x]; Python compares them exactly *)
Definition int_lt_float (n : Z) (x : pyfloat) : bool :=
  match x with
  | Finite q => Qlt_bool (inject_Z n) q
  | Inf negative => negb negative
  | NaN => false
  end.

(** the relative error of the literals 0.05 and 0.10: 2^-54 *)
Definition delta : Q := 1 # 18014398509481984.

(** the literals [0.05] and [0.10] *)
Definition lit_0_05 : pyfloat := round_float (5 # 100).
Definition lit_0_10 : pyfloat := round_float (10 # 100).

End PyFloat.
Export PyFloat.

(** ** Strings

    The [str] methods the collector calls, on ASCII text. *)

Module PyStr.
Local Open Scope char_scope.

(** [str.isspace] on one ASCII character: tab, line feed, vertical tab,
    form feed, carriage return, the four separators 0x1c-0x1f and space *)
Definition is_space (c : ascii) : bool :=
  let n := N_of_ascii c in
  ((9 <=? n) && (n <=? 13) || (28 <=? n) && (n <=? 32))%N.

Definition is_digit (c : ascii) : bool :=
  let n := N_of_ascii c in ((48 <=? n) && (n <=? 57))%N.

Definition digit_val (c : ascii) : Z := Z.of_N (N_of_ascii c) - 48.

Definition lower_char (c : ascii) : ascii :=
  let n := N_of_ascii c in
  if ((65 <=? n) && (n <=? 90))%N then ascii_of_N (n + 32) else c.

Definition chars (s : string) : list ascii := list_ascii_of_string s.
Definition str (cs : list ascii) : string := string_of_list_ascii cs.

(** [s.lower()] *)
Definition lower (s : string) : string := str (map lower_char (chars s)).

(** [s.replace(a, b)] for one-character [a] and [b] *)
Definition replace_char (a b : ascii) (s : string) : string :=
  str (map (fun c => if Ascii.eqb c a then b else c) (chars s)).

Fixpoint drop_while (p : ascii -> bool) (cs : list ascii) : list ascii :=
  match cs with
  | c :: cs' => if p c then drop_while p cs' else cs
  | [] => []
  end.

Definition rstrip_chars (p : ascii -> bool) (cs : list ascii) : list ascii :=
  rev (drop_while p (rev cs)).

(** [s.strip()] *)
Definition strip (s : string) : string :=
  str (rstrip_chars is_space (drop_while is_space (chars s))).

(** [s.rstrip(".")] *)
Definition rstrip_dot (s : string) : string :=
  str (rstrip_chars (Ascii.eqb ".") (chars s)).

(** [s.split()]: maximal runs of non-space characters *)
Fixpoint split_ws_go (tok : list ascii) (cs : list ascii) : list string :=
  match cs with
  | [] => match tok with [] => [] | _ => [str (rev tok)] end
  | c :: cs' =>
      if is_space c
      then match tok with
           | [] => split_ws_go [] cs'
           | _ => str (rev tok) :: split_ws_go [] cs'
           end
      else split_ws_go (c :: tok) cs'
  end.

Definition split_ws (s : string) : list string := split_ws_go [] (chars s).

(** what a token of [s.split()] is made of: at least one character, none of
    them white space *)
Definition solid (cs : list ascii) : Prop :=
  cs <> [] /\ Forall (fun c => is_space c = false) cs.

(** [s.split(sep)] for a one-character separator: empty pieces are kept *)
Fixpoint split_on_go (sep : ascii) (tok : list ascii) (cs : list ascii) : list string :=
  match cs with
  | [] => [str (rev tok)]
  | c :: cs' =>
      if Ascii.eqb c sep
      then str (rev tok) :: split_on_go sep [] cs'
      else split_on_go sep (c :: tok) cs'
  end.

Definition split_on (sep : ascii) (s : string) : list string :=
  split_on_go sep [] (chars s).

Fixpoint is_prefix (p cs : list ascii) : bool :=
  match p, cs with
  | [], _ => true
  | a :: p', c :: cs' => Ascii.eqb a c && is_prefix p' cs'
  | _ :: _, [] => false
  end.

Fixpoint has_sub (p cs : list ascii) : bool :=
  is_prefix p cs || match cs with [] => false | _ :: cs' => has_sub p cs' end.

(** [sub in s] *)
Definition contains (sub s : string) : bool := has_sub (chars sub) (chars s).

(** [s.endswith(c)] for a one-character suffix *)
Definition ends_with (s : string) (c : ascii) : bool :=
  match rev (chars s) with
  | d :: _ => Ascii.eqb d c
  | [] => false
  end.

(** [s[:-1]] *)
Definition drop_last (s : string) : string := str (removelast (chars s)).

(** A run of digits in which single underscores may separate digits, as
    [int()] and [float()] accept it; returns the digits and what follows. *)
Fixpoint scan_digits (after_digit : bool) (cs : list ascii) : list Z * list ascii :=
  match cs with
  | [] => ([], [])
  | c :: cs' =>
      if is_digit c
      then let '(ds, rest) := scan_digits true cs' in (digit_val c :: ds, rest)
      else if Ascii.eqb c "_" && after_digit &&
              match cs' with d :: _ => is_digit d | [] => false end
      then scan_digits false cs'
      else ([], cs)
  end.

Definition digits_value (ds : list Z) : Z := fold_left (fun acc d => 10 * acc + d) ds 0.

Definition scan_sign (cs : list ascii) : bool * list ascii :=
  match cs with
  | "-" :: cs' => (true, cs')
  | "+" :: cs' => (false, cs')
  | _ => (false, cs)
  end.

Definition is_nil {A} (l : list A) : bool := match l with [] => true | _ => false end.

(** [int(s)] in base 10 *)
Definition py_int (s : string) : res Z :=
  let '(negative, cs) := scan_sign (chars (strip s)) in
  let '(ds, rest) := scan_digits false cs in
  if is_nil ds || negb (is_nil rest) then Raise ValueError
  else Ok (if negative then - digits_value ds else digits_value ds).

(** the decimal forms of [float(s)]: digits, optional fraction, optional
    exponent, at least one digit before the exponent *)
Definition parse_decimal (cs : list ascii) : option Q :=
  let '(ip, r1) := scan_digits false cs in
  let '(fp, r2) := match r1 with
                   | "." :: r => scan_digits false r
                   | _ => ([], r1)
                   end in
  if is_nil ip && is_nil fp then None
  else
    let mant := inject_Z (digits_value (ip ++ fp)) in
    let scale := - Z.of_nat (length fp) in
    match r2 with
    | [] => Some (mant * 10 ^ scale)%Q
    | c :: r3 =>
        if Ascii.eqb c "e" || Ascii.eqb c "E"
        then let '(eneg, r4) := scan_sign r3 in
             let '(ed, r5) := scan_digits false r4 in
             if is_nil ed || negb (is_nil r5) then None
             else let e := if eneg then - digits_value ed else digits_value ed in
                  Some (mant * 10 ^ (scale + e))%Q
        else None
    end.

(** [float(s)] *)
Definition py_float (s : string) : res pyfloat :=
  let '(negative, cs) := scan_sign (chars (strip s)) in
  let word := lower (str cs) in
  if String.eqb word "inf" || String.eqb word "infinity" then Ok (Inf negative)
  else if String.eqb word "nan" then Ok NaN
  else match parse_decimal cs with
       | Some q => Ok (round_float (if negative then - q else q)%Q)
       | None => Raise ValueError
       end.

End PyStr.
Export PyStr.

(** ** metrics_store.py

    A table is the list of its rows in rowid order ([id INTEGER PRIMARY KEY]
    grows with every insert and no row is ever deleted), or [None] while
    [CREATE TABLE] has not run.  A connection works on a copy of the
    database; only [commit] publishes the copy, and [close] drops what was
    not committed. *)

Module MetricsStore.

Record SystemSnapshot : Type := {
  timestamp : Z;
  mem_total_mb : Z;
  mem_used_mb : Z;
  mem_free_mb : Z;
  mem_compressed_mb : Z;
  swap_used_mb : Z;
  memory_pressure : string
}.

Record ProcessSnapshot : Type := {
  p_timestamp : Z;
  pid : Z;
  process_name : string;
  rss_mb : Z;
  vms_mb : Z;
  shared_mb : Z;
  cpu_percent : Q;
  is_foreground : Z
}.

Record database : Type := {
  system_snapshot : option (list SystemSnapshot);
  process_snapshot : option (list ProcessSnapshot)
}.

(** What the storage engine does to one call: whether the file opens, which
    statement executions fail (disk full, database locked), whether the
    commit goes through. *)
Record io : Type := {
  open_fails : bool;
  stmt_fails : nat -> bool;
  commit_fails : bool
}.

Record connection : Type := {
  committed : database;
  working : database
}.

(** a storage engine in which nothing fails *)
Definition reliable : io :=
  {| open_fails := false; stmt_fails := fun _ => false; commit_fails := false |}.

(** Statements run against an open connection: they may change its working
    copy and may raise. *)
Definition txn (A : Type) : Type := connection -> connection * res A.

Definition txn_bind {A B} (m : txn A) (k : A -> txn B) : txn B :=
  fun c => match m c with
           | (c', Ok a) => k a c'
           | (c', Raise e) => (c', Raise e)
           end.

Notation "m ;; k" := (txn_bind m (fun _ => k)) (at level 100, k at level 200, right associativity).

(** [sqlite3.connect(db_path)] *)
Definition connect (w : io) (db : database) : res connection :=
  if open_fails w then Raise SqliteError
  else Ok {| committed := db; working := db |}.

(** [conn.commit()] *)
Definition commit (w : io) : txn unit := fun c =>
  if commit_fails w then (c, Raise SqliteError)
  else ({| committed := working c; working := working c |}, Ok tt).

(** [conn.close()]: uncommitted work is lost *)
Definition close (c : connection) : database := committed c.

(** a Python int binds to an SQLite INTEGER only within 64 bits *)
Definition fits_int64 (z : Z) : bool := (- 2 ^ 63 <=? z) && (z <? 2 ^ 63).

Definition system_binds (s : SystemSnapshot) : bool :=
  forallb fits_int64
    [timestamp s; mem_total_mb s; mem_used_mb s; mem_free_mb s;
     mem_compressed_mb s; swap_used_mb s].

Definition process_binds (p : ProcessSnapshot) : bool :=
  forallb fits_int64
    [p_timestamp p; pid p; rss_mb p; vms_mb p; shared_mb p; is_foreground p].

(** one execution of [INSERT INTO system_snapshot (...) VALUES (?, ...)] *)
Definition exec_insert_system (w : io) (n : nat) (s : SystemSnapshot) : txn unit :=
  fun c =>
  match system_snapshot (working c) with
  | None => (c, Raise SqliteError)
  | Some rows =>
      if negb (system_binds s) then (c, Raise OverflowError)
      else if stmt_fails w n then (c, Raise SqliteError)
      else ({| committed := committed c;
               working := {| system_snapshot := Some (rows ++ [s]);
                             process_snapshot := process_snapshot (working c) |} |},
            Ok tt)
  end.

(** one execution of [INSERT INTO process_snapshot (...) VALUES (?, ...)] *)
Definition exec_insert_process (w : io) (n : nat) (p : ProcessSnapshot) : txn unit :=
  fun c =>
  match process_snapshot (working c) with
  | None => (c, Raise SqliteError)
  | Some rows =>
      if negb (process_binds p) then (c, Raise OverflowError)
      else if stmt_fails w n then (c, Raise SqliteError)
      else ({| committed := committed c;
               working := {| system_snapshot := system_snapshot (working c);
                             process_snapshot := Some (rows ++ [p]) |} |},
            Ok tt)
  end.

(** [cursor.executemany(sql, rows)]: the statement is compiled once, which
    needs the table, then run for each row in turn; the first failure stops
    the iteration with the earlier rows already in the working copy *)
Fixpoint run_many (w : io) (n : nat) (rows : list ProcessSnapshot) : txn unit :=
  match rows with
  | [] => fun c => (c, Ok tt)
  | p :: rest => exec_insert_process w n p ;; run_many w (S n) rest
  end.

Definition executemany (w : io) (rows : list ProcessSnapshot) : txn unit :=
  fun c =>
  match process_snapshot (working c) with
  | None => (c, Raise SqliteError)
  | Some _ => run_many w 0 rows c
  end.

(** [conn = connect(...); try: body finally: conn.close()] *)
Definition with_connection (w : io) (db : database) (body : txn unit)
    : database * res unit :=
  match connect w db with
  | Raise e => (db, Raise e)
  | Ok conn => let '(conn', r) := body conn in (close conn', r)
  end.

Definition create_if_absent {A} (t : option (list A)) : option (list A) :=
  match t with
  | None => Some []
  | Some rows => Some rows
  end.

(** A data definition statement takes effect as it runs, outside any
    transaction. *)
Definition exec_ddl (w : io) (n : nat) (f : database -> database) : txn unit :=
  fun c =>
  if stmt_fails w n then (c, Raise SqliteError)
  else ({| committed := f (committed c); working := f (working c) |}, Ok tt).

Definition create_system_table (db : database) : database :=
  {| system_snapshot := create_if_absent (system_snapshot db);
     process_snapshot := process_snapshot db |}.

Definition create_process_table (db : database) : database :=
  {| system_snapshot := system_snapshot db;
     process_snapshot := create_if_absent (process_snapshot db) |}.

(** the three indexes hold no data of their own *)
Definition create_index (db : database) : database := db.

Definition init_db (w : io) (db : database) : database * res unit :=
  with_connection w db
    (exec_ddl w 0 create_system_table ;;
     exec_ddl w 1 create_process_table ;;
     exec_ddl w 2 create_index ;;
     exec_ddl w 3 create_index ;;
     exec_ddl w 4 create_index ;;
     commit w).

(** The two inserts take records, so the [KeyError] of a dict that lacks a
    key has no counterpart here: it would be raised while the parameters are
    built, before any statement runs. *)
Definition insert_system_snapshot (w : io) (db : database)
    (snapshot : SystemSnapshot) : database * res unit :=
  with_connection w db (exec_insert_system w 0 snapshot ;; commit w).

Definition insert_process_snapshots (w : io) (db : database)
    (snapshots : list ProcessSnapshot) : database * res unit :=
  with_connection w db (executemany w snapshots ;; commit w).

End MetricsStore.
Export MetricsStore.

(** ** collector.py *)

Module Collector.
Local Open Scope string_scope.

(** How one external command ends: it could not be started, or it exited
    with a return code and some standard output. *)
Inductive cmd_outcome : Type :=
| NotStarted
| Exited (returncode : Z) (stdout : string).

(** [subprocess.run(cmd, capture_output=True, text=True, check=True)] *)
Definition run_command (o : cmd_outcome) : res string :=
  match o with
  | NotStarted => Raise FileNotFoundError
  | Exited rc out => if Z.eqb rc 0 then Ok (strip out) else Raise CalledProcessError
  end.

(** the inner loop of [get_page_size]: [Some] is the [return] (or the
    exception of its [int] call), [None] is the loop running to its end *)
Fixpoint page_size_in_parts (parts : list string) : option (res Z) :=
  match parts with
  | part :: ((next :: _) as rest) =>
      if String.eqb part "of" then Some (py_int next) else page_size_in_parts rest
  | _ => None
  end.

Fixpoint page_size_in_lines (lines : list string) : res Z :=
  match lines with
  | [] => Ok 4096
  | line :: rest =>
      if contains "page size of" line
      then match page_size_in_parts (split_ws line) with
           | Some r => r
           | None => page_size_in_lines rest
           end
      else page_size_in_lines rest
  end.

Definition get_page_size (vm_stat : cmd_outcome) : res Z :=
  vm_stat_output ← run_command vm_stat;
  page_size_in_lines (split_on "010" vm_stat_output).

Definition parse_vm_stat_line (pages : gmap string Z) (line : string) : gmap string Z :=
  if contains ":" line
  then match split_on ":" line with
       | [k; v] =>
           match py_int (rstrip_dot (strip v)) with
           | Ok n => <[strip k := n]> pages
           | Raise _ => pages
           end
       | _ => pages
       end
  else pages.

Definition parse_vm_stat (vm_stat : cmd_outcome) : res (gmap string Z) :=
  vm_stat_output ← run_command vm_stat;
  mret (fold_left parse_vm_stat_line (split_on "010" vm_stat_output) ∅).

(** the value after the ["used"] token *)
Definition swap_value (token : string) : res Z :=
  let val := strip token in
  if ends_with val "M" || ends_with val "m"
  then f ← py_float (drop_last val); int_of_float f
  else if ends_with val "G" || ends_with val "g"
  then f ← py_float (drop_last val); g ← fmul_int f 1024; int_of_float g
  else f ← py_float val; int_of_float f.

Fixpoint swap_in_tokens (tokens : list string) : res Z :=
  match tokens with
  | tok :: ((next :: _) as rest) =>
      if String.eqb (lower tok) "used" then swap_value next else swap_in_tokens rest
  | _ => Ok 0
  end.

Definition parse_swap_used_mb (swap_output : string) : res Z :=
  swap_in_tokens (split_ws (replace_char "=" " " swap_output)).

Definition MiB : Z := 1024 * 1024.

(** lines 113-123 of [get_system_metrics]: the pressure heuristic *)
Definition pressure_of (free_mb mem_total_mb swap_used_mb : Z) : res string :=
  high_mark ← fmul_int lit_0_05 mem_total_mb;
  if int_lt_float free_mb high_mark || (256 <? swap_used_mb)%Z then mret "high"
  else
    medium_mark ← fmul_int lit_0_10 mem_total_mb;
    if int_lt_float free_mb medium_mark || (0 <? swap_used_mb)%Z then mret "medium"
    else mret "low".

(** The four commands of one call, in the order they run, and the clock. *)
Record system_probe : Type := {
  hw_memsize : cmd_outcome;
  vm_stat_for_page_size : cmd_outcome;
  vm_stat_for_pages : cmd_outcome;
  vm_swapusage : cmd_outcome;
  clock : Z
}.

(** [get_system_metrics] from line 87 on, once the total memory, the page
    size and the page counts are read; the swap usage still has to be run
    and parsed. *)
Definition system_metrics_of (now mem_total_bytes page_size : Z)
    (pages : gmap string Z) (swapusage : cmd_outcome) : res SystemSnapshot :=
  let mem_total_mb := mem_total_bytes / MiB in
  let free_pages := default 0 (pages !! "Pages free") in
  let active_pages := default 0 (pages !! "Pages active") in
  let inactive_pages := default 0 (pages !! "Pages inactive") in
  let wired_pages := default 0 (pages !! "Pages wired down") in
  let compressed_pages := default 0 (pages !! "Pages occupied by compressor") in
  let free_mb := (free_pages * page_size) / MiB in
  let inactive_mb := (inactive_pages * page_size) / MiB in
  let active_mb := (active_pages * page_size) / MiB in
  let wired_mb := (wired_pages * page_size) / MiB in
  let compressed_mb := (compressed_pages * page_size) / MiB in
  let used_mb := active_mb + wired_mb in
  swap_output ← run_command swapusage;
  swap_used ← parse_swap_used_mb swap_output;
  let available_mb := free_mb + inactive_mb in
  pressure ← pressure_of free_mb mem_total_mb swap_used;
  mret {| timestamp := now;
          mem_total_mb := mem_total_mb;
          mem_used_mb := used_mb;
          mem_free_mb := free_mb;
          mem_compressed_mb := compressed_mb;
          swap_used_mb := swap_used;
          memory_pressure := pressure |}.

Definition get_system_metrics (env : system_probe) : res SystemSnapshot :=
  memsize_text ← run_command (hw_memsize env);
  mem_total_bytes ← py_int memsize_text;
  page_size ← get_page_size (vm_stat_for_page_size env);
  pages ← parse_vm_stat (vm_stat_for_pages env);
  system_metrics_of (clock env) mem_total_bytes page_size pages (vm_swapusage env).

(** How the [osascript] call ends: an exception (not found, timeout after
    two seconds) or an exit. *)
Inductive osascript_outcome : Type :=
| OsaRaised
| OsaExited (returncode : Z) (stdout : string).

Definition get_frontmost_app_name (o : osascript_outcome) : option string :=
  match o with
  | OsaExited 0 out => Some (strip out)
  | _ => None
  end.

(** [memory_info] of psutil; [shared] is missing on some platforms *)
Record pmem : Type := { rss : Z; vms : Z; shared : option Z }.

(** [proc.info] for the attributes asked of [process_iter] *)
Record pinfo : Type := {
  info_pid : Z;
  info_name : option string;
  info_memory_info : option pmem;
  info_cpu_percent : option Q
}.

(** one step of the iteration: the process answers, or looking at it raises
    NoSuchProcess, AccessDenied or ZombieProcess *)
Inductive proc_item : Type :=
| Answered (info : pinfo)
| Gone.

(** the truth value of an optional string *)
Definition truthy (s : option string) : bool :=
  match s with
  | Some s => negb (String.eqb s "")
  | None => false
  end.

Definition process_row (now : Z) (frontmost_app : option string)
    (info : pinfo) (mem_info : pmem) : ProcessSnapshot :=
  {| p_timestamp := now;
     pid := info_pid info;
     process_name := if truthy (info_name info) then default "" (info_name info)
                     else "unknown";
     rss_mb := rss mem_info / MiB;
     vms_mb := vms mem_info / MiB;
     shared_mb := match shared mem_info with
                  | Some sh => sh / MiB
                  | None => 0
                  end;
     cpu_percent := match info_cpu_percent info with
                    | Some c => if Qeq_bool c 0 then 0%Q else c
                    | None => 0%Q
                    end;
     is_foreground := if truthy frontmost_app &&
                         bool_decide (info_name info = frontmost_app)
                      then 1 else 0 |}.

Fixpoint collect_rows (now : Z) (frontmost_app : option string)
    (items : list proc_item) : list ProcessSnapshot :=
  match items with
  | [] => []
  | Gone :: rest => collect_rows now frontmost_app rest
  | Answered info :: rest =>
      match info_memory_info info with
      | None => collect_rows now frontmost_app rest
      | Some mem_info =>
          process_row now frontmost_app info mem_info
            :: collect_rows now frontmost_app rest
      end
  end.

(** [list.sort(key=..., reverse=True)]: descending, and rows with equal keys
    keep their order *)
Fixpoint insert_desc (key : ProcessSnapshot -> Z) (p : ProcessSnapshot)
    (sorted : list ProcessSnapshot) : list ProcessSnapshot :=
  match sorted with
  | [] => [p]
  | q :: rest => if (key q <? key p)%Z then p :: q :: rest
                 else q :: insert_desc key p rest
  end.

Definition sort_desc (key : ProcessSnapshot -> Z) (l : list ProcessSnapshot)
    : list ProcessSnapshot :=
  fold_left (fun acc p => insert_desc key p acc) l [].

(** [l[:n]] *)
Definition slice_to {A} (n : Z) (l : list A) : list A :=
  if (0 <=? n)%Z then take (Z.to_nat n) l
  else take (length l - Z.to_nat (- n)) l.

Section Config.

Variable TOP_N_PROCESSES : Z.

Definition get_process_metrics (now : Z) (items : list proc_item)
    (frontmost_app : option string) : list ProcessSnapshot :=
  slice_to TOP_N_PROCESSES (sort_desc rss_mb (collect_rows now frontmost_app items)).

(** Everything one pass of the loop meets outside the program. *)
Record cycle_env : Type := {
  probe : system_probe;
  system_io : io;
  osascript : osascript_outcome;
  process_clock : Z;
  processes : list proc_item;
  process_io : io;
  interrupted : bool
}.

Inductive event : Type :=
| Started
| Collected (ts used_mb : Z) (pressure : string) (nprocs : nat)
| Failed (e : pyexc)
| Slept.

(** the body of the [try] *)
Definition collect_once (env : cycle_env) (db : database) : database * res event :=
  if interrupted env then (db, Raise KeyboardInterrupt)
  else
    match get_system_metrics (probe env) with
    | Raise e => (db, Raise e)
    | Ok system_snapshot =>
        match insert_system_snapshot (system_io env) db system_snapshot with
        | (db1, Raise e) => (db1, Raise e)
        | (db1, Ok _) =>
            let frontmost_app := get_frontmost_app_name (osascript env) in
            let process_snapshots :=
              get_process_metrics (process_clock env) (processes env) frontmost_app in
            let '(db2, stored) :=
              if is_nil process_snapshots then (db1, Ok tt)
              else insert_process_snapshots (process_io env) db1 process_snapshots in
            match stored with
            | Raise e => (db2, Raise e)
            | Ok _ =>
                (db2, Ok (Collected (timestamp system_snapshot)
                                    (mem_used_mb system_snapshot)
                                    (memory_pressure system_snapshot)
                                    (length process_snapshots)))
            end
        end
    end.

(** How a run looks after some number of passes: still looping, or ended by
    an exception. *)
Inductive outcome : Type :=
| Looping
| Ended (e : pyexc).

(** [while True: try: ... except Exception as e: print(...); time.sleep(...)],
    unrolled [fuel] times *)
Fixpoint main_loop (fuel : nat) (envs : nat -> cycle_env) (i : nat)
    (db : database) (log : list event) : database * list event * outcome :=
  match fuel with
  | O => (db, log, Looping)
  | S fuel' =>
      match collect_once (envs i) db with
      | (db', Ok ev) => main_loop fuel' envs (S i) db' (log ++ [ev; Slept])
      | (db', Raise e) =>
          if is_Exception e
          then main_loop fuel' envs (S i) db' (log ++ [Failed e; Slept])
          else (db', log, Ended e)
      end
  end.

Definition main (startup : io) (envs : nat -> cycle_env) (fuel : nat)
    (db : database) : database * list event * outcome :=
  match init_db startup db with
  | (db', Raise e) => (db', [], Ended e)
  | (db', Ok _) => main_loop fuel envs 0 db' [Started]
  end.

End Config.

End Collector.
Export Collector.

(** ** db_readers.py *)

Module DbReaders.

(** [idx_system_timestamp]: the rows by timestamp, rows of equal timestamp
    by rowid.  [ORDER BY timestamp] reads this index, forward for [ASC] and
    backward for [DESC]. *)
Fixpoint index_insert (s : SystemSnapshot) (index : list SystemSnapshot)
    : list SystemSnapshot :=
  match index with
  | [] => [s]
  | r :: rest => if timestamp s <? timestamp r then s :: r :: rest
                 else r :: index_insert s rest
  end.

Definition idx_system_timestamp (rows : list SystemSnapshot) : list SystemSnapshot :=
  fold_left (fun index s => index_insert s index) rows [].

(** A read-only query: open, run the one statement, close; every
    [sqlite3.Error] comes back as a [RuntimeError]. *)
Definition query {R A} (w : io) (table : option (list R)) (run : list R -> A) : res A :=
  if open_fails w then Raise RuntimeError
  else match table with
       | None => Raise RuntimeError
       | Some rows => if stmt_fails w 0 then Raise RuntimeError else Ok (run rows)
       end.

(** [ORDER BY timestamp DESC LIMIT 1]; [None] is the empty table *)
Definition fetch_latest_snapshot (w : io) (db : database) : res (option SystemSnapshot) :=
  query w (system_snapshot db) (fun rows => last (idx_system_timestamp rows)).

(** the five columns [fetch_system_snapshots] selects *)
Record TrendRow : Type := {
  t_timestamp : Z;
  t_mem_used_mb : Z;
  t_mem_free_mb : Z;
  t_mem_compressed_mb : Z;
  t_swap_used_mb : Z
}.

Definition trend_row (s : SystemSnapshot) : TrendRow :=
  {| t_timestamp := timestamp s;
     t_mem_used_mb := mem_used_mb s;
     t_mem_free_mb := mem_free_mb s;
     t_mem_compressed_mb := mem_compressed_mb s;
     t_swap_used_mb := swap_used_mb s |}.

(** [timestamp >= unixepoch('now') - (? * 60)] *)
Definition in_window (now window_minutes ts : Z) : bool :=
  now - window_minutes * 60 <=? ts.

Definition fetch_system_snapshots (w : io) (now : Z) (db : database)
    (window_minutes : Z) : res (list TrendRow) :=
  query w (system_snapshot db) (fun rows =>
    map trend_row
      (filter (fun s => in_window now window_minutes (timestamp s))
              (idx_system_timestamp rows))).

(** The running state of the four aggregates of one group.  [AVG] divides
    the sum by the count as floats; the sums are kept exactly here, which is
    what SQLite computes while they stay below 2^53. *)
Record group_acc : Type := {
  acc_max : Z;
  acc_sum : Z;
  acc_count : Z;
  acc_foreground : Z
}.

Definition acc_first (p : ProcessSnapshot) : group_acc :=
  {| acc_max := rss_mb p;
     acc_sum := rss_mb p;
     acc_count := 1;
     acc_foreground := is_foreground p |}.

Definition acc_step (a : group_acc) (p : ProcessSnapshot) : group_acc :=
  {| acc_max := Z.max (acc_max a) (rss_mb p);
     acc_sum := acc_sum a + rss_mb p;
     acc_count := acc_count a + 1;
     acc_foreground := acc_foreground a + is_foreground p |}.

(** [GROUP BY process_name, pid] *)
Definition group_key (p : ProcessSnapshot) : string * Z := (process_name p, pid p).

Definition group_step (groups : gmap (string * Z) group_acc) (p : ProcessSnapshot)
    : gmap (string * Z) group_acc :=
  match groups !! group_key p with
  | None => <[group_key p := acc_first p]> groups
  | Some a => <[group_key p := acc_step a p]> groups
  end.

Record TopProcess : Type := {
  top_process_name : string;
  top_pid : Z;
  max_rss_mb : Z;
  avg_rss_mb : pyfloat;
  times_seen : Z;
  foreground_ratio : pyfloat
}.

(** [AVG]: sum over count *)
Definition sql_avg (sum count : Z) : pyfloat :=
  round_float (inject_Z sum / inject_Z count)%Q.

Definition top_process (g : string * Z * group_acc) : TopProcess :=
  let '(name, id, a) := g in
  {| top_process_name := name;
     top_pid := id;
     max_rss_mb := acc_max a;
     avg_rss_mb := sql_avg (acc_sum a) (acc_count a);
     times_seen := acc_count a;
     foreground_ratio := sql_avg (acc_foreground a) (acc_count a) |}.

(** [ORDER BY max_rss_mb DESC]; SQL leaves the order of equal rows open *)
Fixpoint insert_by_max (t : TopProcess) (sorted : list TopProcess) : list TopProcess :=
  match sorted with
  | [] => [t]
  | u :: rest => if max_rss_mb u <? max_rss_mb t then t :: u :: rest
                 else u :: insert_by_max t rest
  end.

Definition order_by_max (l : list TopProcess) : list TopProcess :=
  fold_left (fun acc t => insert_by_max t acc) l [].

(** [LIMIT ?]: a negative limit is no limit *)
Definition sql_limit {A} (limit : Z) (l : list A) : list A :=
  if limit <? 0 then l else take (Z.to_nat limit) l.

Definition fetch_top_processes (w : io) (now : Z) (db : database)
    (window_minutes : Z) (limit : Z) : res (list TopProcess) :=
  query w (process_snapshot db) (fun rows =>
    let selected := filter (fun p => in_window now window_minutes (p_timestamp p)) rows in
    let groups := fold_left group_step selected ∅ in
    sql_limit limit (order_by_max (map top_process (map_to_list groups)))).

(** What the aggregates of a group are, said of the group's rows: these are
    the words of the query, to be compared with the accumulators above. *)
Definition rows_of_group (selected : list ProcessSnapshot) (key : string * Z)
    : list ProcessSnapshot :=
  filter (fun p => group_key p = key) selected.

Definition total (f : ProcessSnapshot -> Z) (rows : list ProcessSnapshot) : Z :=
  foldr (fun p acc => f p + acc) 0 rows.

Definition is_max_rss (m : Z) (rows : list ProcessSnapshot) : Prop :=
  (exists p, p ∈ rows /\ rss_mb p = m) /\ forall p, p ∈ rows -> rss_mb p <= m.

Definition top_key (t : TopProcess) : string * Z := (top_process_name t, top_pid t).

End DbReaders.
Export DbReaders.

(** ** db_readers.py: validate_schema *)

Module SchemaCheck.
Local Open Scope string_scope.

(** [required_tables], in the order the dict is written *)
Definition required_tables : list (string * gset string) :=
  [("system_snapshot",
    {[ "id"; "timestamp"; "mem_total_mb"; "mem_used_mb"; "mem_free_mb";
       "mem_compressed_mb"; "swap_used_mb"; "memory_pressure" ]});
   ("process_snapshot",
    {[ "id"; "timestamp"; "pid"; "process_name"; "rss_mb"; "vms_mb";
       "shared_mb"; "cpu_percent"; "is_foreground" ]})].

(** What the [RuntimeError] says: which table is missing, which columns of
    which table are missing, or that the database itself failed. *)
Inductive schema_error : Type :=
| TableMissing (table_name : string)
| ColumnsMissing (table_name : string) (missing_columns : gset string)
| DatabaseError.

(** The loop over the tables.  [catalog] gives, for a table that exists, the
    column names [PRAGMA table_info] lists ([row[1]] of each row); for a
    table that does not exist the pragma returns no row.  [None] is the
    loop running to its end. *)
Fixpoint check_tables (w : io) (n : nat) (catalog : gmap string (list string))
    (tables : list (string * gset string)) : option schema_error :=
  match tables with
  | [] => None
  | (table_name, expected_columns) :: rest =>
      if stmt_fails w n then Some DatabaseError
      else
        let rows := default [] (catalog !! table_name) in
        if is_nil rows then Some (TableMissing table_name)
        else
          let actual_columns : gset string := list_to_set rows in
          let missing_columns := expected_columns ∖ actual_columns in
          if decide (missing_columns = ∅) then check_tables w (S n) catalog rest
          else Some (ColumnsMissing table_name missing_columns)
  end.

(** [validate_schema]: [None] is the normal return, [Some] the
    [RuntimeError] raised *)
Definition validate_schema (w : io) (catalog : gmap string (list string))
    : option schema_error :=
  if open_fails w then Some DatabaseError
  else check_tables w 0 catalog required_tables.

(** The columns of the two tables as [init_db] creates them
    (metrics_store.py, the two CREATE TABLE statements). *)
Definition system_snapshot_columns : list string :=
  ["id"; "timestamp"; "mem_total_mb"; "mem_used_mb"; "mem_free_mb";
   "mem_compressed_mb"; "swap_used_mb"; "memory_pressure"].

Definition process_snapshot_columns : list string :=
  ["id"; "timestamp"; "pid"; "process_name"; "rss_mb"; "vms_mb"; "shared_mb";
   "cpu_percent"; "is_foreground"].

(** What [PRAGMA table_info] lists for a database whose tables, where they
    exist, were created by [init_db]. *)
Definition table_info (db : database) : gmap string (list string) :=
  let system :=
    match system_snapshot db with
    | Some _ => <["system_snapshot" := system_snapshot_columns]> ∅
    | None => ∅
    end in
  match process_snapshot db with
  | Some _ => <["process_snapshot" := process_snapshot_columns]> system
  | None => system
  end.

End SchemaCheck.
Export SchemaCheck.

(** ** advisor_summary.py *)

Module AdvisorSummary.

(** a value that is an [int] on one path and a [float] on another *)
Inductive number : Type :=
| Int (z : Z)
| Float (f : pyfloat).

(** [a / b] on ints with [b] not zero: the quotient rounded once, or
    "integer division result too large for a float" *)
Definition int_truediv (a b : Z) : res pyfloat :=
  match round_float (inject_Z a / inject_Z b)%Q with
  | Inf _ => Raise OverflowError
  | f => Ok f
  end.

(** [sum(l)] *)
Definition py_sum (l : list Z) : Z := fold_left Z.add l 0.

(** [sum(l) / len(l) if l else 0] *)
Definition avg_or_zero (l : list Z) : res number :=
  if is_nil l then Ok (Int 0)
  else f ← int_truediv (py_sum l) (Z.of_nat (length l)); mret (Float f).

(** [max(l) if l else 0] and [min(l) if l else 0] *)
Definition max_or_zero (l : list Z) : Z :=
  match l with
  | [] => 0
  | x :: rest => fold_left Z.max rest x
  end.

Definition min_or_zero (l : list Z) : Z :=
  match l with
  | [] => 0
  | x :: rest => fold_left Z.min rest x
  end.

(** [round(x, ndigits)] on a float: the decimal with [ndigits] places
    nearest to the exact value of [x], ties to even, read back as a float *)
Definition py_round (x : pyfloat) (ndigits : Z) : pyfloat :=
  match x with
  | Finite q => round_float (inject_Z (rne (q * 10 ^ ndigits)) / 10 ^ ndigits)%Q
  | _ => x
  end.

Record LatestView : Type := {
  l_mem_used_mb : Z;
  l_mem_free_mb : Z;
  l_mem_compressed_mb : Z;
  l_swap_used_mb : Z;
  l_memory_pressure : string;
  l_timestamp : Z
}.

Record Trends : Type := {
  mem_used_avg : number;
  mem_used_max : Z;
  mem_used_min : Z;
  mem_free_avg : number;
  mem_compressed_avg : number;
  swap_used_avg : number;
  swap_used_max : Z;
  sample_count : nat
}.

(** one entry of ["top_processes"]; [round] leaves the int [max_rss_mb] as
    it is *)
Record ProcessView : Type := {
  v_process_name : string;
  v_pid : Z;
  v_max_rss_mb : Z;
  v_avg_rss_mb : pyfloat;
  v_times_seen : Z;
  v_foreground_ratio : pyfloat
}.

(** the summary dict; [trends] is [None] for the empty dict *)
Record Summary : Type := {
  window_minutes : Z;
  latest : option LatestView;
  trends : option Trends;
  top_processes : list ProcessView;
  memory_pressure_history : list string
}.

Definition latest_view (s : SystemSnapshot) : LatestView :=
  {| l_mem_used_mb := mem_used_mb s;
     l_mem_free_mb := mem_free_mb s;
     l_mem_compressed_mb := mem_compressed_mb s;
     l_swap_used_mb := swap_used_mb s;
     l_memory_pressure := memory_pressure s;
     l_timestamp := timestamp s |}.

Definition trends_of (snapshots : list TrendRow) : res Trends :=
  let mem_used := map t_mem_used_mb snapshots in
  let mem_free := map t_mem_free_mb snapshots in
  let mem_compressed := map t_mem_compressed_mb snapshots in
  let swap_used := map t_swap_used_mb snapshots in
  used_avg ← avg_or_zero mem_used;
  free_avg ← avg_or_zero mem_free;
  compressed_avg ← avg_or_zero mem_compressed;
  swap_avg ← avg_or_zero swap_used;
  mret {| mem_used_avg := used_avg;
          mem_used_max := max_or_zero mem_used;
          mem_used_min := min_or_zero mem_used;
          mem_free_avg := free_avg;
          mem_compressed_avg := compressed_avg;
          swap_used_avg := swap_avg;
          swap_used_max := max_or_zero swap_used;
          sample_count := length snapshots |}.

Definition process_view (p : TopProcess) : ProcessView :=
  {| v_process_name := top_process_name p;
     v_pid := top_pid p;
     v_max_rss_mb := max_rss_mb p;
     v_avg_rss_mb := py_round (avg_rss_mb p) 1;
     v_times_seen := times_seen p;
     v_foreground_ratio := py_round (foreground_ratio p) 2 |}.

(** [try: body except RuntimeError: pass] around the update of one entry:
    [Ok None] leaves the entry as it was *)
Definition unless_runtime_error {A} (body : res (option A)) : res (option A) :=
  match body with
  | Raise RuntimeError => Ok None
  | other => other
  end.

(** The three reads open a connection each: [w1], [w2], [w3] say how the
    storage engine treats them. *)
Definition build_advisor_summary (w1 w2 w3 : io) (now : Z) (db : database)
    (window : Z) : res Summary :=
  new_latest ← unless_runtime_error
    (found ← fetch_latest_snapshot w1 db; Ok (option_map latest_view found));
  new_trends ← unless_runtime_error
    (snapshots ← fetch_system_snapshots w2 now db window;
     if is_nil snapshots then Ok None
     else t ← trends_of snapshots; Ok (Some t));
  new_top ← unless_runtime_error
    (processes ← fetch_top_processes w3 now db window 10;
     Ok (Some (map process_view processes)));
  Ok {| window_minutes := window;
          latest := new_latest;
          trends := new_trends;
          top_processes := default [] new_top;
          memory_pressure_history := [] |}.

End AdvisorSummary.
Export AdvisorSummary.

(** ** process_actions.py *)

Module ProcessActions.
Local Open Scope string_scope.

(** what a psutil call can raise: the three classes the handlers name (a
    subclass such as ZombieProcess counts as its parent NoSuchProcess), or
    any other subclass of [Exception], kept by its class name *)
Inductive psutil_error : Type :=
| NoSuchProcess
| AccessDenied
| TimeoutExpired
| OtherError (class_name : string).

Inductive outcome (A : Type) : Type :=
| Returns (a : A)
| Throws (e : psutil_error).
Arguments Returns {A} a.
Arguments Throws {A} e.

(** [psutil.Process(pid)] once it is found: what [name()] and [uids().real]
    answer *)
Record target : Type := {
  t_name : outcome string;
  t_uids_real : outcome Z
}.

(** the host as [can_kill_pid] sees it: [os.getpid()], [os.geteuid()] and
    the process table *)
Record host : Type := {
  getpid : Z;
  geteuid : Z;
  process_at : Z -> outcome target
}.

Definition PROTECTED_NAMES : gset string :=
  {[ "launchd"; "kernel_task"; "WindowServer"; "loginwindow" ]}.

Definition can_kill_pid (h : host) (pid : Z) : outcome (bool * string) :=
  if (pid <=? 1)%Z then Returns (false, "system process pid <= 1")
  else if Z.eqb pid (getpid h) then Returns (false, "cannot kill self")
  else
    match process_at h pid with
    | Throws NoSuchProcess => Returns (false, "process does not exist")
    | Throws AccessDenied => Returns (false, "access denied")
    | Throws e => Throws e
    | Returns proc =>
        match t_name proc with
        | Throws AccessDenied => Returns (false, "access denied")
        | Throws e => Throws e
        | Returns name =>
            if decide (name ∈ PROTECTED_NAMES)
            then Returns (false, "protected process: " +:+ name)
            else
              match t_uids_real proc with
              | Throws AccessDenied => Returns (false, "access denied")
              | Throws e => Throws e
              | Returns real =>
                  if Z.eqb real 0 && negb (Z.eqb (geteuid h) 0)
                  then Returns (false, "root-owned process, non-root user")
                  else Returns (true, "ok")
              end
        end
    end.

Inductive signal : Type := SIGTERM | SIGKILL.

(** What happens after the check: the second [psutil.Process(pid)], the
    [kill()] or [terminate()] call, the [wait(timeout)]; and how
    [timeout_sec] prints. *)
Record aftermath : Type := {
  found_again : outcome unit;
  signalled : outcome unit;
  waited : outcome unit;
  timeout_text : string
}.

Record report : Type := {
  ok : bool;
  r_pid : Z;
  action : string;
  reason : string
}.

(** [type(e).__name__] *)
Definition class_name_of (e : psutil_error) : string :=
  match e with
  | NoSuchProcess => "NoSuchProcess"
  | AccessDenied => "AccessDenied"
  | TimeoutExpired => "TimeoutExpired"
  | OtherError c => c
  end.

(** the three handlers of the outer [try] *)
Definition handle_signal_error (pid : Z) (action : string) (e : psutil_error) : report :=
  match e with
  | NoSuchProcess =>
      {| ok := true; r_pid := pid; action := action; reason := "process already gone" |}
  | AccessDenied =>
      {| ok := false; r_pid := pid; action := action; reason := "access denied" |}
  | _ =>
      {| ok := false; r_pid := pid; action := action;
         reason := "error: " +:+ class_name_of e |}
  end.

(** [terminate_pid]: the signals it sent, in order, and what it returned or
    raised *)
Definition terminate_pid (h : host) (after : aftermath) (pid : Z) (force : bool)
    : list signal * outcome report :=
  match can_kill_pid h pid with
  | Throws e => ([], Throws e)
  | Returns (false, why) =>
      ([], Returns {| ok := false; r_pid := pid; action := "deny"; reason := why |})
  | Returns (true, _) =>
      match found_again after with
      | Throws NoSuchProcess =>
          ([], Returns {| ok := false; r_pid := pid; action := "no_such_process";
                          reason := "process does not exist" |})
      | Throws e => ([], Throws e)
      | Returns _ =>
          let action := if force then "kill" else "terminate" in
          let sent := [if force then SIGKILL else SIGTERM] in
          match signalled after with
          | Throws e => (sent, Returns (handle_signal_error pid action e))
          | Returns _ =>
              match waited after with
              | Returns _ =>
                  (sent, Returns {| ok := true; r_pid := pid; action := action;
                                    reason := "terminated successfully" |})
              | Throws TimeoutExpired =>
                  (sent, Returns {| ok := false; r_pid := pid; action := action;
                                    reason := "process did not exit within "
                                              +:+ timeout_text after +:+ "s" |})
              | Throws e => (sent, Returns (handle_signal_error pid action e))
              end
          end
      end
  end.

End ProcessActions.
Export ProcessActions.

(** ** Notions used to state the properties *)

Module Notions.
Local Open Scope string_scope.

(** every stored integer is one SQLite can hold *)
Definition stored_fit (db : database) : Prop :=
  (forall rows, system_snapshot db = Some rows ->
                Forall (fun s => system_binds s = true) rows) /\
  (forall rows, process_snapshot db = Some rows ->
                Forall (fun p => process_binds p = true) rows).

(** [db'] holds every table of [db], each with the rows of [db] first and
    in the same order *)
Definition grows (db db' : database) : Prop :=
  (forall rows, system_snapshot db = Some rows ->
                exists more, system_snapshot db' = Some (rows ++ more)%list) /\
  (forall rows, process_snapshot db = Some rows ->
                exists more, process_snapshot db' = Some (rows ++ more)%list).

(** what one line of vm_stat contributes to the page counts, if anything *)
Definition line_entry (line : string) : option (string * Z) :=
  if contains ":" line
  then match split_on ":" line with
       | [k; v] =>
           match py_int (rstrip_dot (strip v)) with
           | Ok n => Some (strip k, n)
           | Raise _ => None
           end
       | _ => None
       end
  else None.

(** [str(n)] for an int *)
Definition decimal (n : Z) : string := NilZero.string_of_int (Z.to_int n).

(** the first line vm_stat prints on a host whose pages have [n] bytes *)
Definition vm_stat_header (n : Z) : string :=
  "Mach Virtual Memory Statistics: (page size of " +:+ decimal n +:+ " bytes)".

(** a line of counts as vm_stat prints it: the label, a colon, padding, the
    count and a dot *)
Definition vm_stat_line (label : string) (padding : nat) (n : Z) : string :=
  label +:+ ":" +:+ str (repeat " "%char padding) +:+ decimal n +:+ ".".

(** a label as it is kept: no colon in it and no white space around it *)
Definition plain_label (label : string) : Prop :=
  strip label = label /\ Forall (fun c => c <> ":"%char) (chars label).

(** the three pressure levels in their order; any other text counts as the
    lowest *)
Definition pressure_level (p : string) : nat :=
  if String.eqb p "high" then 2
  else if String.eqb p "medium" then 1
  else 0.

(** sample data for the examples: a host whose probes answer, one process
    of 200 MiB, and a storage engine that cannot open the database *)
Definition sample_probe : system_probe :=
  {| hw_memsize := Exited 0 "17179869184";
     vm_stat_for_page_size :=
       Exited 0 "Mach Virtual Memory Statistics: (page size of 16384 bytes)";
     vm_stat_for_pages := Exited 0 "Pages free: 100000.";
     vm_swapusage := Exited 0 "total = 0.00M  used = 0.00M  free = 0.00M";
     clock := 1700000000 |}.

Definition sample_process : proc_item :=
  Answered {| info_pid := 412; info_name := Some "Safari";
              info_memory_info := Some {| rss := 209715200; vms := 419430400;
                                          shared := None |};
              info_cpu_percent := Some (5 # 2)%Q |}.

Definition unreachable : io :=
  {| open_fails := true; stmt_fails := fun _ => false; commit_fails := false |}.

End Notions.
Export Notions.

(** * Properties *)

(** ** Rounding to binary64 *)

Module PyFloatFacts.
Local Open Scope Q_scope.

Lemma two_pow_pos e : 0 < 2 ^ e.
Proof. apply Qpower_0_lt. reflexivity. Qed.

Lemma two_pow_add a b : 2 ^ (a + b) == 2 ^ a * 2 ^ b.
Proof. apply Qpower_plus. discriminate. Qed.

Lemma two_pow_succ a : 2 ^ (a + 1) == 2 * 2 ^ a.
Proof. rewrite two_pow_add. change (2 ^ 1) with 2. ring. Qed.

Lemma two_pow_le a b : (a <= b)%Z -> 2 ^ a <= 2 ^ b.
Proof. intros H. apply Qpower_le_compat_l; [exact H | discriminate]. Qed.

Lemma two_pow_lt a b : (a < b)%Z -> 2 ^ a < 2 ^ b.
Proof. intros H. apply Qpower_lt_compat_l; [exact H | reflexivity]. Qed.

Lemma two_pow_inject n : (0 <= n)%Z -> inject_Z (2 ^ n) == 2 ^ n.
Proof. intros H. apply (Zpower_Qpower 2 n H). Qed.

Lemma Zlog2_Q (p : Z) : (0 < p)%Z ->
  2 ^ Z.log2 p <= inject_Z p /\ inject_Z p < 2 * 2 ^ Z.log2 p.
Proof.
  intros Hp. destruct (Z.log2_spec p Hp) as [H1 H2].
  pose proof (Z.log2_nonneg p) as Hn.
  rewrite <- two_pow_succ, <- !two_pow_inject by lia.
  rewrite <- Zle_Qle, <- Zlt_Qlt. split; [exact H1 | exact H2].
Qed.

Lemma Qlog2_spec x : 0 < x -> 2 ^ Qlog2 x <= x /\ x < 2 ^ (Qlog2 x + 1).
Proof.
  intros Hx. unfold Qlog2.
  destruct x as [p q]. cbn [Qnum Qden].
  assert (Hp : (0 < p)%Z) by (unfold Qlt in Hx; cbn in Hx; lia).
  destruct (Zlog2_Q p Hp) as [Hp1 Hp2].
  destruct (Zlog2_Q (Zpos q) eq_refl) as [Hq1 Hq2].
  set (lp := Z.log2 p) in *. set (lq := Z.log2 (Z.pos q)) in *.
  pose proof (two_pow_pos lp) as HA. pose proof (two_pow_pos lq) as HB.
  assert (Hd : 2 ^ (lp - lq) * 2 ^ lq == 2 ^ lp).
  { rewrite <- two_pow_add. replace (lp - lq + lq)%Z with lp by lia. reflexivity. }
  assert (Hxq : (p # q) * inject_Z (Z.pos q) == inject_Z p).
  { unfold Qeq, Qmult, inject_Z. cbn. lia. }
  set (w := 2 ^ (lp - lq)) in *. set (x := p # q) in *.
  set (P := inject_Z p) in *. set (D := inject_Z (Z.pos q)) in *.
  set (A := 2 ^ lp) in *. set (B := 2 ^ lq) in *.
  assert (Hw : 0 < w) by apply two_pow_pos.
  destruct (Qle_bool w x) eqn:E.
  - apply Qle_bool_iff in E. split; [exact E |].
    rewrite two_pow_succ. fold w. 
    apply (Qmult_lt_r _ _ (D * B)); [nra|]. nra.
  - assert (E' : x < w).
    { apply Qnot_le_lt. intros H. apply Qle_bool_iff in H. congruence. }
    replace (lp - lq - 1 + 1)%Z with (lp - lq)%Z by lia. fold w. split; [| exact E'].
    assert (Hh : 2 ^ (lp - lq - 1) * 2 == w).
    { unfold w. replace (lp - lq)%Z with (lp - lq - 1 + 1)%Z at 2 by lia.
      rewrite two_pow_succ. ring. }
    set (h := 2 ^ (lp - lq - 1)) in *.
    apply (Qmult_le_r _ _ (D * B)); [nra|]. nra.
Qed.

Lemma Qlog2_unique x d : 0 < x -> 2 ^ d <= x -> x < 2 ^ (d + 1) -> Qlog2 x = d.
Proof.
  intros Hx H1 H2. destruct (Qlog2_spec x Hx) as [L1 L2].
  assert (d < Qlog2 x + 1)%Z.
  { apply (Qpower_lt_compat_l_inv 2); [| reflexivity].
    eapply Qle_lt_trans; eassumption. }
  assert (Qlog2 x < d + 1)%Z.
  { apply (Qpower_lt_compat_l_inv 2); [| reflexivity].
    eapply Qle_lt_trans; eassumption. }
  lia.
Qed.

Lemma rne_floor_le y : (Qfloor y <= rne y)%Z.
Proof.
  unfold rne. destruct (Qcompare _ _); [destruct (Z.even _) | |]; lia.
Qed.

Lemma rne_lower K y : inject_Z K <= y -> (K <= rne y)%Z.
Proof.
  intros H. apply Qfloor_resp_le in H. rewrite Qfloor_Z in H.
  pose proof (rne_floor_le y). lia.
Qed.

Lemma rne_near K y : inject_Z K <= y -> y < inject_Z K + (1 # 2) -> rne y = K.
Proof.
  intros H1 H2.
  assert (HK : Qfloor y = K).
  { pose proof (Qfloor_resp_le _ _ H1) as Ha. rewrite Qfloor_Z in Ha.
    assert (Hb : (Qfloor y < K + 1)%Z).
    { rewrite Zlt_Qlt. eapply Qle_lt_trans; [apply Qfloor_le |].
      rewrite inject_Z_plus. change (inject_Z 1) with 1. lra. }
    lia. }
  unfold rne. rewrite HK.
  assert (Hc : y - inject_Z K < 1 # 2) by lra.
  destruct (Qcompare_spec (y - inject_Z K) (1 # 2)); [lra | reflexivity | lra].
Qed.

Lemma rne_upper K y : y <= inject_Z K -> (rne y <= K)%Z.
Proof.
  intros H.
  pose proof (Qfloor_resp_le _ _ H) as Ha. rewrite Qfloor_Z in Ha.
  destruct (Z.eq_dec (Qfloor y) K) as [E | E].
  - rewrite (rne_near K y); [lia | | lra].
    rewrite <- E. apply Qfloor_le.
  - assert (rne y <= Qfloor y + 1)%Z; [| lia].
    unfold rne. destruct (Qcompare _ _); [destruct (Z.even _) | |]; lia.
Qed.

Lemma fexp_pos x : 0 < x -> fexp x = Z.max (Qlog2 x - 52) (-1074).
Proof.
  intros Hx. unfold fexp. destruct x as [p q].
  assert (0 < p)%Z by (unfold Qlt in Hx; cbn in Hx; lia).
  cbn [Qabs]. now rewrite Z.abs_eq by lia.
Qed.

Lemma scaled_int m ea e : (e <= ea)%Z ->
  inject_Z m * 2 ^ ea == inject_Z (m * 2 ^ (ea - e)) * 2 ^ e.
Proof.
  intros H. rewrite inject_Z_mult, two_pow_inject by lia.
  rewrite <- Qmult_assoc, <- two_pow_add.
  now replace (ea - e + e)%Z with ea by lia.
Qed.

Lemma mant_bound m ea : (Z.abs m < 2 ^ 53)%Z -> inject_Z m * 2 ^ ea < 2 ^ (53 + ea).
Proof.
  intros H. rewrite two_pow_add.
  apply Qmult_lt_compat_r; [apply two_pow_pos |].
  rewrite <- two_pow_inject by lia. rewrite <- Zlt_Qlt. lia.
Qed.

Lemma round_val_lower a x : representable a -> 0 < a -> a <= x -> a <= round_val x.
Proof.
  intros (m & ea & Hm & Hea & Ha) Ha0 Hax.
  assert (Hx : 0 < x) by lra.
  destruct (Qlog2_spec x Hx) as [L1 L2].
  unfold round_val. pose proof (fexp_pos x Hx) as He.
  set (e := fexp x) in *. pose proof (two_pow_pos e) as Hpe.
  destruct (Z_le_gt_dec e ea) as [Hle | Hgt].
  - rewrite (scaled_int m ea e Hle) in Ha. rewrite Ha.
    apply Qmult_le_compat_r; [| lra]. rewrite <- Zle_Qle.
    apply rne_lower. apply Qle_shift_div_l; [exact Hpe |]. lra.
  - assert (Ee : e = (Qlog2 x - 52)%Z) by lia.
    pose proof (mant_bound m ea Hm) as Hb.
    assert (Hc : 2 ^ (53 + ea) <= 2 ^ (52 + e)) by (apply two_pow_le; lia).
    assert (Hd : 2 ^ (52 + e) == inject_Z (2 ^ 52) * 2 ^ e).
    { rewrite two_pow_add, two_pow_inject by lia. reflexivity. }
    assert (Hf : 2 ^ (52 + e) <= x).
    { replace (52 + e)%Z with (Qlog2 x) by lia. exact L1. }
    apply Qle_trans with (inject_Z (2 ^ 52) * 2 ^ e); [lra |].
    apply Qmult_le_compat_r; [| lra]. rewrite <- Zle_Qle.
    apply rne_lower. apply Qle_shift_div_l; [exact Hpe |]. lra.
Qed.

Lemma round_val_upper b x : representable b -> 0 < x -> x <= b -> round_val x <= b.
Proof.
  intros (m & eb & Hm & Heb & Hb) Hx Hxb.
  destruct (Qlog2_spec x Hx) as [L1 L2].
  unfold round_val. pose proof (fexp_pos x Hx) as He.
  set (e := fexp x) in *. pose proof (two_pow_pos e) as Hpe.
  destruct (Z_le_gt_dec e eb) as [Hle | Hgt].
  - rewrite (scaled_int m eb e Hle) in Hb. rewrite Hb.
    apply Qmult_le_compat_r; [| lra]. rewrite <- Zle_Qle.
    apply rne_upper. apply Qle_shift_div_r; [exact Hpe |]. lra.
  - exfalso.
    assert (Ee : e = (Qlog2 x - 52)%Z) by lia.
    pose proof (mant_bound m eb Hm) as Hbb.
    assert (Hc : 2 ^ (53 + eb) <= 2 ^ (52 + e)) by (apply two_pow_le; lia).
    assert (Hf : 2 ^ (52 + e) <= x).
    { replace (52 + e)%Z with (Qlog2 x) by lia. exact L1. }
    lra.
Qed.

Lemma round_val_exact x : representable x -> 0 < x -> round_val x == x.
Proof.
  intros Hr Hx. apply Qle_antisym.
  - apply round_val_upper; [exact Hr | exact Hx | lra].
  - apply round_val_lower; [exact Hr | exact Hx | lra].
Qed.

Lemma round_val_near x K :
  0 < x -> inject_Z K * 2 ^ fexp x <= x ->
  x < (inject_Z K + (1 # 2)) * 2 ^ fexp x ->
  round_val x == inject_Z K * 2 ^ fexp x.
Proof.
  intros Hx H1 H2. unfold round_val.
  pose proof (two_pow_pos (fexp x)) as Hpe.
  rewrite (rne_near K); [reflexivity | |].
  - apply Qle_shift_div_l; [exact Hpe | exact H1].
  - apply Qlt_shift_div_r; [exact Hpe | exact H2].
Qed.

Lemma round_float_pos x v :
  0 < x -> round_val x == v -> v < 2 ^ 1024 -> 0 <= v ->
  round_float x = Finite (round_val x).
Proof.
  intros Hx Hv Hlt Hv0. unfold round_float.
  destruct (Qeq_bool x 0) eqn:E.
  - apply Qeq_bool_iff in E. lra.
  - destruct (Qle_bool (2 ^ 1024) (Qabs (round_val x))) eqn:F; [| reflexivity].
    apply Qle_bool_iff in F. rewrite Hv, Qabs_pos in F by exact Hv0. lra.
Qed.

(** The product of an int [t] below 2^48 with a float [c] that lies one part
    in 2^54 above [1/N], as the literals 0.05 and 0.10 do, rounds to a value
    that separates the integers exactly as [t/N] does. *)
Lemma threshold_round (N : Z) (c x : Q) (t : Z) :
  (2 <= N <= 32)%Z -> c * inject_Z N == 1 + delta ->
  (0 <= t < 2 ^ 48)%Z -> x == c * inject_Z t ->
  exists v, round_float x = Finite v /\
            forall f : Z, inject_Z f < v <-> (N * f < t)%Z.
Proof.
  intros HN Hc Ht Hxdef.
  assert (Hn : 2 <= inject_Z N <= 32).
  { split; [change 2 with (inject_Z 2) | change 32 with (inject_Z 32)];
      rewrite <- Zle_Qle; lia. }
  set (n := inject_Z N) in *.
  assert (Hd : delta == 1 # 18014398509481984) by reflexivity.
  assert (Hc0 : (1 # 32) <= c) by nra.
  destruct (Z.eq_dec t 0%Z) as [-> | Hne].
  { exists 0. split.
    - unfold round_float.
      replace (Qeq_bool x 0) with true; [reflexivity |].
      symmetry. apply Qeq_bool_iff. rewrite Hxdef. change (inject_Z 0) with 0. ring.
    - intros f. change 0 with (inject_Z 0). rewrite <- Zlt_Qlt. nia. }
  set (k := (t / N)%Z). set (r := (t mod N)%Z).
  assert (Ediv : t = (N * k + r)%Z) by (apply Z.div_mod; lia).
  assert (Hr : (0 <= r < N)%Z) by (apply Z.mod_pos_bound; lia).
  assert (Hk : (0 <= k < 2 ^ 48)%Z).
  { split; [apply Z.div_pos; lia |]. apply Z.div_lt_upper_bound; nia. }
  assert (Hkq : 0 <= inject_Z k < 281474976710656).
  { split; [change 0 with (inject_Z 0); rewrite <- Zle_Qle; lia |].
    change 281474976710656 with (inject_Z (2 ^ 48)). rewrite <- Zlt_Qlt. lia. }
  assert (Hrq : 0 <= inject_Z r <= n - 1).
  { split; [change 0 with (inject_Z 0); rewrite <- Zle_Qle; lia |].
    unfold n. change 1 with (inject_Z 1).
    unfold Qminus. rewrite <- inject_Z_opp, <- inject_Z_plus, <- Zle_Qle. lia. }
  assert (Etq : inject_Z t == n * inject_Z k + inject_Z r).
  { rewrite Ediv, inject_Z_plus, inject_Z_mult. reflexivity. }
  assert (Ex : x == (1 + delta) * inject_Z k + c * inject_Z r).
  { rewrite Hxdef, Etq, <- Hc. ring. }
  set (kq := inject_Z k) in *. set (rq := inject_Z r) in *.
  assert (Htq : 1 <= inject_Z t).
  { change 1 with (inject_Z 1). rewrite <- Zle_Qle. lia. }
  assert (Hx : 0 < x) by nra.
  destruct (Z.eq_dec r 0%Z) as [Hr0 | Hr0].
  - (* t is a multiple of N: the product rounds back to k *)
    assert (Erq : rq == 0) by (unfold rq; rewrite Hr0; reflexivity).
    assert (Hk1 : (1 <= k)%Z) by nia.
    destruct (Z.log2_spec k ltac:(lia)) as [J1 J2].
    pose proof (Z.log2_nonneg k) as Jn.
    assert (Jlt : (Z.log2 k < 48)%Z).
    { apply Z.log2_lt_pow2; lia. }
    set (j := Z.log2 k) in *.
    assert (Q1 : 2 ^ j <= kq).
    { rewrite <- two_pow_inject by lia. unfold kq. rewrite <- Zle_Qle. exact J1. }
    assert (Q2 : kq + 1 <= 2 ^ (j + 1)).
    { rewrite <- two_pow_inject by lia. unfold kq. change 1 with (inject_Z 1).
      rewrite <- inject_Z_plus, <- Zle_Qle. unfold Z.succ in J2. lia. }
    assert (EL : Qlog2 x = j).
    { apply Qlog2_unique; [exact Hx | nra | nra]. }
    assert (Ee : fexp x = (j - 52)%Z).
    { rewrite fexp_pos by exact Hx. rewrite EL. lia. }
    assert (EK : kq == inject_Z (k * 2 ^ (0 - (j - 52))) * 2 ^ (j - 52)).
    { rewrite <- (scaled_int k 0 (j - 52)) by lia. change (2 ^ 0) with 1. fold kq. lra. }
    set (K := (k * 2 ^ (0 - (j - 52)))%Z) in *.
    assert (EP : 2 ^ (j + 1) == 9007199254740992 * 2 ^ (j - 52)).
    { replace (j + 1)%Z with (53 + (j - 52))%Z by lia. rewrite two_pow_add.
      reflexivity. }
    pose proof (two_pow_pos (j - 52)) as HE.
    assert (Hv : round_val x == kq).
    { transitivity (inject_Z K * 2 ^ fexp x).
      - apply round_val_near; rewrite ?Ee; [exact Hx | nra | nra].
      - rewrite Ee. symmetry. exact EK. }
    exists (round_val x). split.
    + apply (round_float_pos x kq Hx Hv); [| lra].
      eapply Qlt_le_trans with (2 ^ 48); [exact (proj2 Hkq) |].
      apply two_pow_le. lia.
    + intros f. rewrite Hv. unfold kq. rewrite <- Zlt_Qlt. nia.
  - (* otherwise the product stays strictly between k and k + 1 *)
    assert (Hr1 : 1 <= rq).
    { unfold rq. change 1 with (inject_Z 1). rewrite <- Zle_Qle. lia. }
    assert (Hlo : kq + (1 # 32) <= round_val x).
    { apply round_val_lower; [| lra | nra].
      exists (32 * k + 1)%Z, (-5)%Z. split; [lia | split; [lia |]].
      rewrite inject_Z_plus, inject_Z_mult. fold kq.
      change (2 ^ (-5)) with (1 # 32). change (inject_Z 32) with 32.
      change (inject_Z 1) with 1. lra. }
    assert (Hhi : round_val x <= kq + 1).
    { apply round_val_upper; [| exact Hx | nra].
      exists (k + 1)%Z, 0%Z. split; [lia | split; [lia |]].
      rewrite inject_Z_plus. fold kq. change (2 ^ 0) with 1.
      change (inject_Z 1) with 1. lra. }
    exists (round_val x). split.
    + apply (round_float_pos x (round_val x) Hx); [reflexivity | | lra].
      eapply Qle_lt_trans with (2 ^ 49); [| apply two_pow_lt; lia].
      change (2 ^ 49) with (2 * 281474976710656). lra.
    + intros f. split; intros H.
      * assert (Hf : inject_Z f < inject_Z (k + 1)).
        { rewrite inject_Z_plus. fold kq. change (inject_Z 1) with 1. lra. }
        rewrite <- Zlt_Qlt in Hf. nia.
      * assert (Hf : (f <= k)%Z) by nia.
        rewrite Zle_Qle in Hf. fold kq in Hf. lra.
Qed.

Lemma float_of_int_small n :
  (0 <= n < 2 ^ 53)%Z -> exists v, float_of_int n = Ok (Finite v) /\ v == inject_Z n.
Proof.
  intros Hn. unfold float_of_int.
  destruct (Z.eq_dec n 0%Z) as [-> | Hne].
  { exists 0. split; reflexivity. }
  assert (Hx : 0 < inject_Z n).
  { change 0 with (inject_Z 0). rewrite <- Zlt_Qlt. lia. }
  assert (Hr : representable (inject_Z n)).
  { exists n, 0%Z. split; [lia | split; [lia |]]. change (2 ^ 0) with 1. ring. }
  pose proof (round_val_exact _ Hr Hx) as Hv.
  rewrite (round_float_pos (inject_Z n) (inject_Z n) Hx Hv).
  - exists (round_val (inject_Z n)). split; [reflexivity | exact Hv].
  - apply Qlt_le_trans with (2 ^ 53); [| apply two_pow_le; lia].
    rewrite <- two_pow_inject by lia. rewrite <- Zlt_Qlt. lia.
  - lra.
Qed.

Lemma Qlt_bool_iff x y : Qlt_bool x y = true <-> x < y.
Proof.
  unfold Qlt_bool. rewrite negb_true_iff. split.
  - intros H. apply Qnot_le_lt. intros Hle. apply Qle_bool_iff in Hle. congruence.
  - intros H. destruct (Qle_bool y x) eqn:E; [| reflexivity].
    apply Qle_bool_iff in E. lra.
Qed.

(** [f < c * t] in the program's arithmetic is [N * f < t] in the integers. *)
Lemma int_below_mark (N : Z) (c : Q) (t f : Z) :
  (2 <= N <= 32)%Z -> c * inject_Z N == 1 + delta -> (0 <= t < 2 ^ 48)%Z ->
  exists m, fmul_int (Finite c) t = Ok m /\
            (int_lt_float f m = true <-> (N * f < t)%Z).
Proof.
  intros HN Hc Ht.
  destruct (float_of_int_small t ltac:(lia)) as (v & Ev & Hv).
  destruct (threshold_round N c (c * v) t HN Hc Ht) as (m & Em & Hm).
  { rewrite Hv. reflexivity. }
  exists (Finite m). split.
  - unfold fmul_int. rewrite Ev. cbn. rewrite Em. reflexivity.
  - cbn. rewrite Qlt_bool_iff. apply Hm.
Qed.

Lemma lit_0_05_value : lit_0_05 = Finite (7205759403792794 # 144115188075855872).
Proof. reflexivity. Qed.

Lemma lit_0_10_value : lit_0_10 = Finite (7205759403792794 # 72057594037927936).
Proof. reflexivity. Qed.

(** comparing with the exact fraction *)
Lemma Qlt_fraction (N f t : Z) (p : positive) (a : Z) :
  (0 < a)%Z -> (N * a = Zpos p)%Z ->
  inject_Z f < (a # p) * inject_Z t <-> (N * f < t)%Z.
Proof.
  intros Ha Hp. unfold Qlt, Qmult, inject_Z. cbn.
  rewrite Pos.mul_1_r, Z.mul_1_r, <- Hp. nia.
Qed.

End PyFloatFacts.
Import PyFloatFacts.

(** ** The pressure heuristic *)

(** C1: the heuristic is "high" when free_mb < 0.05 * total_mb or more than
    256 MB of swap is used, otherwise "medium" when free_mb < 0.10 * total_mb
    or any swap is used, otherwise "low", with "high" tested first.  The
    products are the program's float products; for a total below 2^48 MB
    they are the exact 5% and 10% of the total. *)
Theorem pressure_of_thresholds (free_mb total_mb swap_used_mb : Z) :
  (forall high_mark medium_mark,
      fmul_int lit_0_05 total_mb = Ok high_mark ->
      fmul_int lit_0_10 total_mb = Ok medium_mark ->
      let high := int_lt_float free_mb high_mark = true \/ 256 < swap_used_mb in
      let medium := int_lt_float free_mb medium_mark = true \/ 0 < swap_used_mb in
      (high -> pressure_of free_mb total_mb swap_used_mb = Ok "high"%string) /\
      (~ high -> medium -> pressure_of free_mb total_mb swap_used_mb = Ok "medium"%string) /\
      (~ high -> ~ medium -> pressure_of free_mb total_mb swap_used_mb = Ok "low"%string)) /\
  (0 <= total_mb < 2 ^ 48 ->
   let high := (inject_Z free_mb < (5 # 100) * inject_Z total_mb)%Q \/ 256 < swap_used_mb in
   let medium := (inject_Z free_mb < (10 # 100) * inject_Z total_mb)%Q \/ 0 < swap_used_mb in
   (high -> pressure_of free_mb total_mb swap_used_mb = Ok "high"%string) /\
   (~ high -> medium -> pressure_of free_mb total_mb swap_used_mb = Ok "medium"%string) /\
   (~ high -> ~ medium -> pressure_of free_mb total_mb swap_used_mb = Ok "low"%string)).
Proof.
  assert (Hmarks : forall high_mark medium_mark,
      fmul_int lit_0_05 total_mb = Ok high_mark ->
      fmul_int lit_0_10 total_mb = Ok medium_mark ->
      let high := int_lt_float free_mb high_mark = true \/ 256 < swap_used_mb in
      let medium := int_lt_float free_mb medium_mark = true \/ 0 < swap_used_mb in
      (high -> pressure_of free_mb total_mb swap_used_mb = Ok "high"%string) /\
      (~ high -> medium -> pressure_of free_mb total_mb swap_used_mb = Ok "medium"%string) /\
      (~ high -> ~ medium -> pressure_of free_mb total_mb swap_used_mb = Ok "low"%string)).
  { intros m5 m10 E5 E10 high medium. subst high medium.
    unfold pressure_of. rewrite E5. cbn. rewrite E10. cbn.
    destruct (int_lt_float free_mb m5); destruct (int_lt_float free_mb m10);
      destruct (Z.ltb_spec 256 swap_used_mb);
      destruct (Z.ltb_spec 0 swap_used_mb); cbn;
      repeat split; intros; try reflexivity; exfalso;
      repeat match goal with
             | H : _ \/ _ |- _ => destruct H
             | H : ~ (_ \/ _) |- _ => apply Decidable.not_or in H; destruct H
             end; try discriminate; try lia; try congruence. }
  split; [exact Hmarks |].
  intros Ht high medium. subst high medium.
  rewrite (Qlt_fraction 20 free_mb total_mb 100 5) by lia.
  rewrite (Qlt_fraction 10 free_mb total_mb 100 10) by lia.
  destruct (int_below_mark 20 (7205759403792794 # 144115188075855872) total_mb free_mb
              ltac:(lia) ltac:(reflexivity) Ht)
    as (m5 & E5 & H5).
  destruct (int_below_mark 10 (7205759403792794 # 72057594037927936) total_mb free_mb
              ltac:(lia) ltac:(reflexivity) Ht)
    as (m10 & E10 & H10).
  rewrite <- lit_0_05_value in E5. rewrite <- lit_0_10_value in E10.
  rewrite <- H5, <- H10. exact (Hmarks m5 m10 E5 E10).
Qed.

(** a total of 100 MB with 4 MB free and no swap in use is "high" *)
Lemma pressure_of_thresholds_witness :
  0 <= 100 < 2 ^ 48 /\ pressure_of 4 100 0 = Ok "high"%string.
Proof.
  assert (H : 0 <= 100 < 2 ^ 48) by lia.
  split; [exact H |].
  destruct (pressure_of_thresholds 4 100 0) as [_ Hexact].
  destruct (Hexact H) as (Hhigh & _ & _).
  apply Hhigh. left. reflexivity.
Defined.

(** Past 2^53 MB the float product is no longer the exact fraction: here
    free_mb is exactly 5% of the total, and the rounded product lies above
    it. *)
Example pressure_of_beyond_double_precision :
  20 * 9007199254740993 = 180143985094819860 /\
  pressure_of 9007199254740993 180143985094819860 0 = Ok "high"%string.
Proof. split; reflexivity. Qed.

(** the three sample points of the specification, at a total of 1000 MB *)
Example pressure_of_samples :
  pressure_of 40 1000 0 = Ok "high"%string /\
  pressure_of 80 1000 0 = Ok "medium"%string /\
  pressure_of 500 1000 0 = Ok "low"%string.
Proof. repeat split; reflexivity. Qed.

(** ** One system sample *)

(** C10: two samples whose page counts agree on every label but
    "Pages inactive" yield the same snapshot, hence the same memory_pressure:
    the inactive count only feeds [available_mb], which nothing reads. *)
Theorem pressure_ignores_inactive (now mem_total_bytes page_size : Z)
    (pages pages' : gmap string Z) (swapusage : cmd_outcome) :
  delete "Pages inactive"%string pages = delete "Pages inactive"%string pages' ->
  system_metrics_of now mem_total_bytes page_size pages swapusage =
  system_metrics_of now mem_total_bytes page_size pages' swapusage.
Proof.
  intros Hsame.
  assert (Hl : forall k : string, k <> "Pages inactive"%string -> pages !! k = pages' !! k).
  { intros k Hk.
    rewrite <- (lookup_delete_ne pages "Pages inactive"%string k) by congruence.
    rewrite <- (lookup_delete_ne pages' "Pages inactive"%string k) by congruence.
    now rewrite Hsame. }
  unfold system_metrics_of.
  rewrite (Hl "Pages free"%string), (Hl "Pages active"%string),
    (Hl "Pages wired down"%string), (Hl "Pages occupied by compressor"%string)
    by discriminate.
  reflexivity.
Qed.

(** 1000 free pages of 4096 bytes out of 16 GiB, with 5 or with 7000
    inactive pages *)
Lemma pressure_ignores_inactive_witness :
  system_metrics_of 0 17179869184 4096
    (<["Pages free"%string := 1000]> (<["Pages inactive"%string := 5]> ∅))
    (Exited 0 "total = 0.00M  used = 0.00M  free = 0.00M") =
  system_metrics_of 0 17179869184 4096
    (<["Pages free"%string := 1000]> (<["Pages inactive"%string := 7000]> ∅))
    (Exited 0 "total = 0.00M  used = 0.00M  free = 0.00M").
Proof.
  apply pressure_ignores_inactive. vm_compute. reflexivity.
Defined.

Lemma system_metrics_of_used now mem_total_bytes page_size pages swapusage s :
  system_metrics_of now mem_total_bytes page_size pages swapusage = Ok s ->
  mem_used_mb s =
    (default 0 (pages !! "Pages active"%string) * page_size) / MiB +
    (default 0 (pages !! "Pages wired down"%string) * page_size) / MiB.
Proof.
  unfold system_metrics_of. intros H.
  destruct (run_command swapusage) as [out |]; cbn in H; [| discriminate].
  destruct (parse_swap_used_mb out) as [swap |]; cbn in H; [| discriminate].
  destruct (pressure_of _ _ swap) as [pr |]; cbn in H; [| discriminate].
  injection H as <-. reflexivity.
Qed.

Lemma floor_sum_bounds x y m :
  0 < m -> x / m + y / m <= (x + y) / m <= x / m + y / m + 1.
Proof.
  intros Hm.
  pose proof (Z.div_mod x m ltac:(lia)) as Hx.
  pose proof (Z.div_mod y m ltac:(lia)) as Hy.
  pose proof (Z.mod_pos_bound x m Hm) as Bx.
  pose proof (Z.mod_pos_bound y m Hm) as By.
  replace (x + y) with ((x / m + y / m) * m + (x mod m + y mod m)) by lia.
  rewrite Z.div_add_l by lia.
  assert (0 <= (x mod m + y mod m) / m) by (apply Z.div_pos; lia).
  assert ((x mod m + y mod m) / m < 2) by (apply Z.div_lt_upper_bound; lia).
  lia.
Qed.

(** C2 as stated fails: 128 active and 128 wired pages of 4096 bytes are half
    a megabyte each, so the code stores 0 MB used, while the floor of their
    sum is 1 MB. *)
Lemma used_mb_floor_of_sum_fails :
  exists s,
    system_metrics_of 0 17179869184 4096
      (<["Pages active"%string := 128]> (<["Pages wired down"%string := 128]> ∅))
      (Exited 0 "total = 0.00M  used = 0.00M  free = 0.00M") = Ok s /\
    mem_used_mb s = 0 /\
    mem_used_mb s <> ((128 + 128) * 4096) / (1024 * 1024).
Proof.
  eexists. split; [vm_compute; reflexivity |]. split; [reflexivity | discriminate].
Qed.

(** C2, amended: mem_used_mb is the sum of the active and the wired page
    counts each converted to MB by floor division, which is the floor of the
    converted sum or one less; and it need not equal mem_total_mb minus
    mem_free_mb. *)
Theorem used_mb_sums_floors :
  (forall now mem_total_bytes page_size pages swapusage s,
      system_metrics_of now mem_total_bytes page_size pages swapusage = Ok s ->
      let active_pages := default 0 (pages !! "Pages active"%string) in
      let wired_pages := default 0 (pages !! "Pages wired down"%string) in
      mem_used_mb s =
        (active_pages * page_size) / (1024 * 1024) +
        (wired_pages * page_size) / (1024 * 1024) /\
      ((active_pages + wired_pages) * page_size) / (1024 * 1024) - 1
        <= mem_used_mb s
        <= ((active_pages + wired_pages) * page_size) / (1024 * 1024)) /\
  (exists s,
      system_metrics_of 0 17179869184 4096
        (<["Pages free"%string := 1000]> (<["Pages active"%string := 2000]> ∅))
        (Exited 0 "total = 0.00M  used = 0.00M  free = 0.00M") = Ok s /\
      mem_used_mb s <> mem_total_mb s - mem_free_mb s).
Proof.
  split.
  - intros now mem_total_bytes page_size pages swapusage s Hs active_pages wired_pages.
    pose proof (system_metrics_of_used _ _ _ _ _ _ Hs) as Hu.
    fold active_pages wired_pages in Hu. change MiB with (1024 * 1024) in Hu.
    split; [exact Hu |].
    rewrite Hu, Z.mul_add_distr_r.
    pose proof (floor_sum_bounds (active_pages * page_size) (wired_pages * page_size)
                  (1024 * 1024) ltac:(lia)).
    lia.
  - eexists. split; [vm_compute; reflexivity | discriminate].
Qed.

(** 300 active and 200 wired pages of 4096 bytes: 1 MB used *)
Lemma used_mb_sums_floors_witness :
  exists s,
    system_metrics_of 0 17179869184 4096
      (<["Pages active"%string := 300]> (<["Pages wired down"%string := 200]> ∅))
      (Exited 0 "total = 0.00M  used = 0.00M  free = 0.00M") = Ok s /\
    mem_used_mb s = (300 * 4096) / (1024 * 1024) + (200 * 4096) / (1024 * 1024).
Proof.
  eexists. split; [vm_compute; reflexivity |].
  destruct used_mb_sums_floors as [H _].
  refine (proj1 (H 0 17179869184 4096
    (<["Pages active"%string := 300]> (<["Pages wired down"%string := 200]> ∅))
    (Exited 0 "total = 0.00M  used = 0.00M  free = 0.00M") _ _)).
  vm_compute. reflexivity.
Defined.

(** ** Tokens and swap usage *)

Lemma chars_str cs : chars (str cs) = cs.
Proof. apply list_ascii_of_string_of_list_ascii. Qed.

Lemma str_chars s : str (chars s) = s.
Proof. apply string_of_list_ascii_of_string. Qed.

Lemma drop_while_head p c cs : p c = false -> drop_while p (c :: cs) = c :: cs.
Proof. intros H. cbn. now rewrite H. Qed.

Lemma strip_solid cs : solid cs -> strip (str cs) = str cs.
Proof.
  intros [Hne Hall]. unfold strip, rstrip_chars. rewrite chars_str.
  destruct cs as [| c cs]; [congruence |].
  rewrite drop_while_head by (inversion Hall; assumption).
  assert (Hr : Forall (fun c => is_space c = false) (rev (c :: cs))).
  { apply Forall_rev. exact Hall. }
  destruct (rev (c :: cs)) as [| d ds] eqn:E.
  - apply (f_equal (@List.length ascii)) in E. rewrite length_rev in E. discriminate.
  - rewrite drop_while_head by (inversion Hr; assumption).
    rewrite <- E, rev_involutive. reflexivity.
Qed.

Lemma split_ws_go_solid tok cs :
  Forall (fun c => is_space c = false) tok ->
  Forall (fun t => exists l, t = str l /\ solid l) (split_ws_go tok cs).
Proof.
  revert tok. induction cs as [| c cs IH]; intros tok Htok; cbn.
  - destruct tok as [| a tok']; constructor; [| constructor].
    exists (rev (a :: tok')). split; [reflexivity |]. split.
    + intros E. apply (f_equal (@List.length ascii)) in E.
      rewrite length_rev in E. discriminate.
    + apply Forall_rev. exact Htok.
  - destruct (is_space c) eqn:Ec.
    + destruct tok as [| a tok'].
      * apply IH. constructor.
      * constructor; [| apply IH; constructor].
        exists (rev (a :: tok')). split; [reflexivity |]. split.
        -- intros E. apply (f_equal (@List.length ascii)) in E.
           rewrite length_rev in E. discriminate.
        -- apply Forall_rev. exact Htok.
    + apply IH. constructor; assumption.
Qed.

(** a token of [s.split()] is not changed by [strip()] *)
Lemma split_ws_strip s tok : In tok (split_ws s) -> strip tok = tok.
Proof.
  intros Hin. unfold split_ws in Hin.
  pose proof (split_ws_go_solid [] (chars s) ltac:(constructor)) as H.
  rewrite List.Forall_forall in H. destruct (H tok Hin) as (l & -> & Hl).
  apply strip_solid. exact Hl.
Qed.

Lemma swap_in_tokens_absent tokens :
  Forall (fun tok => lower tok <> "used"%string) tokens -> swap_in_tokens tokens = Ok 0.
Proof.
  induction 1 as [| tok rest Htok _ IH]; [reflexivity |].
  cbn. destruct rest as [| next rest']; [reflexivity |].
  destruct (String.eqb_spec (lower tok) "used"); [contradiction | exact IH].
Qed.

Lemma swap_in_tokens_first before tok val after :
  Forall (fun t => lower t <> "used"%string) before -> lower tok = "used"%string ->
  swap_in_tokens (before ++ tok :: val :: after) = swap_value val.
Proof.
  intros Hb Htok. induction Hb as [| b before' Hb _ IH]; cbn.
  - rewrite Htok. reflexivity.
  - destruct (before' ++ tok :: val :: after) as [| next rest] eqn:E.
    + destruct before'; discriminate.
    + destruct (String.eqb_spec (lower b) "used"); [contradiction | exact IH].
Qed.

Lemma swap_in_tokens_last before tok :
  Forall (fun t => lower t <> "used"%string) before ->
  swap_in_tokens (before ++ [tok]) = Ok 0.
Proof.
  induction 1 as [| b before' Hb _ IH]; cbn; [reflexivity |].
  destruct (before' ++ [tok]) as [| next rest] eqn:E; [reflexivity |].
  destruct (String.eqb_spec (lower b) "used"); [contradiction | exact IH].
Qed.

(** [int()] of a finite float drops the fraction: toward zero *)
Lemma int_of_float_truncates q :
  exists z, int_of_float (Finite q) = Ok z /\
            (Qabs (inject_Z z) <= Qabs q)%Q /\ (Qabs q < Qabs (inject_Z z) + 1)%Q /\
            0 <= z * Qnum q.
Proof.
  destruct q as [n d]. exists (Z.quot n (Zpos d)). split; [reflexivity |].
  assert (Hd : 0 < Zpos d) by lia.
  assert (Habs : Z.abs (Z.quot n (Zpos d)) = Z.abs n / Zpos d).
  { rewrite <- Z.quot_abs by lia. rewrite (Z.abs_eq (Zpos d)) by lia.
    apply Z.quot_div_nonneg; lia. }
  pose proof (Z.mul_div_le (Z.abs n) (Zpos d) Hd) as H1.
  pose proof (Z.mul_succ_div_gt (Z.abs n) (Zpos d) Hd) as H2.
  cbn [Qnum]. repeat split.
  - unfold Qle, Qabs, inject_Z. cbn [Qnum Qden]. rewrite Habs. lia.
  - unfold Qlt, Qabs, Qplus, inject_Z. cbn [Qnum Qden]. rewrite Habs. lia.
  - destruct (Z.le_gt_cases 0 n) as [Hn | Hn].
    + pose proof (Z.quot_pos n (Zpos d) Hn Hd). lia.
    + assert (Z.quot n (Zpos d) <= 0); [| nia].
      rewrite <- (Z.opp_involutive n), Z.quot_opp_l by lia.
      pose proof (Z.quot_pos (- n) (Zpos d) ltac:(lia) Hd). lia.
Qed.



(** ** Page size *)

Lemma page_size_in_parts_first before next after :
  Forall (fun part => part <> "of"%string) before ->
  page_size_in_parts (before ++ "of"%string :: next :: after) = Some (py_int next).
Proof.
  induction 1 as [| b before' Hb _ IH]; cbn; [reflexivity |].
  destruct (before' ++ "of"%string :: next :: after) as [| p rest] eqn:E.
  - destruct before'; discriminate.
  - destruct (String.eqb_spec b "of"); [contradiction | exact IH].
Qed.

(** no line with the phrase: the fallback *)
Lemma page_size_absent lines :
  Forall (fun line => contains "page size of" line = false) lines ->
  page_size_in_lines lines = Ok 4096.
Proof.
  induction 1 as [| line rest Hline _ IH]; cbn; [reflexivity |].
  now rewrite Hline.
Qed.

(** the first line with the phrase decides, when its first "of" token has a
    successor: the result is [int()] of that successor, whatever it is *)
Lemma page_size_first_line skipped line rest before next after :
  Forall (fun l => contains "page size of" l = false) skipped ->
  contains "page size of" line = true ->
  split_ws line = before ++ "of"%string :: next :: after ->
  Forall (fun part => part <> "of"%string) before ->
  page_size_in_lines (skipped ++ line :: rest) = py_int next.
Proof.
  intros Hs Hline Hparts Hbefore.
  induction Hs as [| l skipped' Hl _ IH]; cbn.
  - rewrite Hline, Hparts, page_size_in_parts_first by assumption. reflexivity.
  - rewrite Hl. exact IH.
Qed.

Example page_size_vm_stat_header :
  get_page_size
    (Exited 0 "Mach Virtual Memory Statistics: (page size of 16384 bytes)") = Ok 16384.
Proof. vm_compute. reflexivity. Qed.

(** C4 does not hold of the code: the [int()] call after "of" is not guarded,
    so a header whose size is not a number raises ValueError instead of
    giving 4096, and so does a well-formed header that follows another "of"
    on its line. *)
Theorem get_page_size_raises :
  get_page_size
    (Exited 0 "Mach Virtual Memory Statistics: (page size of unknown bytes)")
    = Raise ValueError /\
  get_page_size
    (Exited 0 "Statistics of this host: (page size of 16384 bytes)")
    = Raise ValueError.
Proof. split; vm_compute; reflexivity. Qed.

(** ** The timestamp index and the system queries *)

Lemma index_insert_perm s index : index_insert s index ≡ₚ s :: index.
Proof.
  induction index as [| r rest IH]; cbn; [reflexivity |].
  destruct (timestamp s <? timestamp r); [reflexivity |].
  rewrite IH. apply perm_swap.
Qed.

Lemma index_fold_perm rows index :
  fold_left (fun index s => index_insert s index) rows index ≡ₚ index ++ rows.
Proof.
  revert index. induction rows as [| s rows IH]; intros index; cbn.
  - now rewrite app_nil_r.
  - rewrite IH, index_insert_perm. apply Permutation_middle.
Qed.

Lemma idx_system_timestamp_perm rows : idx_system_timestamp rows ≡ₚ rows.
Proof. unfold idx_system_timestamp. now rewrite index_fold_perm. Qed.

Lemma index_insert_sorted s index :
  StronglySorted (fun a b => timestamp a <= timestamp b) index ->
  StronglySorted (fun a b => timestamp a <= timestamp b) (index_insert s index).
Proof.
  induction 1 as [| r rest Hrest IH Hr]; cbn.
  - repeat constructor.
  - destruct (Z.ltb_spec (timestamp s) (timestamp r)) as [Hlt | Hge].
    + constructor; [constructor; assumption |].
      constructor; [lia |].
      eapply Forall_impl; [exact Hr |]. cbn. intros; lia.
    + constructor; [exact IH |].
      rewrite index_insert_perm. constructor; [exact Hge | exact Hr].
Qed.

Lemma index_fold_sorted rows index :
  StronglySorted (fun a b => timestamp a <= timestamp b) index ->
  StronglySorted (fun a b => timestamp a <= timestamp b)
    (fold_left (fun index s => index_insert s index) rows index).
Proof.
  revert index. induction rows as [| s rows IH]; intros index H; cbn; [exact H |].
  apply IH, index_insert_sorted, H.
Qed.

Lemma idx_system_timestamp_sorted rows :
  StronglySorted (fun a b => timestamp a <= timestamp b) (idx_system_timestamp rows).
Proof. apply index_fold_sorted. constructor. Qed.

(** a row at least as recent as every indexed row goes to the end *)
Lemma index_insert_latest s index :
  Forall (fun r => timestamp r <= timestamp s) index ->
  index_insert s index = index ++ [s].
Proof.
  induction 1 as [| r rest Hr _ IH]; cbn; [reflexivity |].
  destruct (Z.ltb_spec (timestamp s) (timestamp r)); [lia |].
  now rewrite IH.
Qed.

Lemma idx_system_timestamp_snoc rows s :
  idx_system_timestamp (rows ++ [s]) = index_insert s (idx_system_timestamp rows).
Proof. unfold idx_system_timestamp. now rewrite fold_left_app. Qed.

Lemma insert_system_snapshot_ok w db s db' :
  insert_system_snapshot w db s = (db', Ok tt) ->
  exists rows, system_snapshot db = Some rows /\
    db' = {| system_snapshot := Some (rows ++ [s]);
             process_snapshot := process_snapshot db |}.
Proof.
  unfold insert_system_snapshot, with_connection, connect, txn_bind,
    exec_insert_system, commit, close.
  destruct (open_fails w); cbn -[system_binds]; [discriminate |].
  destruct (system_snapshot db) as [rows |]; cbn -[system_binds]; [| discriminate].
  destruct (system_binds s); cbn; [| discriminate].
  destruct (stmt_fails w 0); cbn; [discriminate |].
  destruct (commit_fails w); cbn; [discriminate |].
  intros [= <-]. exists rows. split; reflexivity.
Qed.



Lemma filter_map_sorted (P : SystemSnapshot -> Prop) `{forall s, Decision (P s)} index :
  StronglySorted (fun a b => timestamp a <= timestamp b) index ->
  StronglySorted (fun a b => t_timestamp a <= t_timestamp b)
    (map trend_row (filter P index)).
Proof.
  induction 1 as [| r rest Hrest IH Hr]; [constructor |].
  rewrite filter_cons. destruct (decide (P r)); [| exact IH].
  cbn. constructor; [exact IH |].
  rewrite List.Forall_forall in Hr. apply List.Forall_forall.
  intros t Ht. apply in_map_iff in Ht as (s & <- & Hs).
  apply list_elem_of_In, list_elem_of_filter in Hs as [_ Hs].
  apply list_elem_of_In in Hs. exact (Hr s Hs).
Qed.

Lemma in_window_iff now window_minutes ts :
  Is_true (in_window now window_minutes ts) <-> now - window_minutes * 60 <= ts.
Proof.
  unfold in_window. destruct (Z.leb_spec (now - window_minutes * 60) ts); cbn; split;
    intros; try lia; try exact I; contradiction.
Qed.



Example fetch_system_snapshots_boundary :
  let row := fun ts => {| timestamp := ts; mem_total_mb := 16384; mem_used_mb := 7000;
                          mem_free_mb := 4000; mem_compressed_mb := 1000;
                          swap_used_mb := 0; memory_pressure := "low" |} in
  fetch_system_snapshots reliable 1000
    {| system_snapshot := Some [row 900; row 699; row 700]; process_snapshot := Some [] |}
    5 = Ok [trend_row (row 700); trend_row (row 900)].
Proof. reflexivity. Qed.

(** ** Transactions *)

Lemma run_many_committed w rows : forall n c,
  committed (run_many w n rows c).1 = committed c.
Proof.
  induction rows as [| p rest IH]; intros n c; cbn; [reflexivity |].
  unfold txn_bind, exec_insert_process.
  destruct (process_snapshot (working c)); [| reflexivity].
  destruct (process_binds p); cbn; [| reflexivity].
  destruct (stmt_fails w n); [reflexivity |].
  now rewrite IH.
Qed.

Lemma run_many_ok w rows : forall n c c',
  run_many w n rows c = (c', Ok tt) ->
  system_snapshot (working c') = system_snapshot (working c) /\
  process_snapshot (working c') = (fun old => old ++ rows) <$> process_snapshot (working c).
Proof.
  induction rows as [| p rest IH]; intros n c c'; cbn.
  - intros [= <-]. split; [reflexivity |].
    destruct (process_snapshot (working c)); cbn; [now rewrite app_nil_r | reflexivity].
  - unfold txn_bind, exec_insert_process.
    destruct (process_snapshot (working c)) as [old |] eqn:E; [| discriminate].
    destruct (process_binds p); cbn; [| discriminate].
    destruct (stmt_fails w n); [discriminate |].
    intros H. apply IH in H as [Hs Hp]. cbn in Hs, Hp. split; [exact Hs |].
    rewrite Hp. cbn. now rewrite <- app_assoc.
Qed.

Lemma run_many_row_fails w rows : forall n c i p,
  rows !! i = Some p ->
  process_binds p = false \/ stmt_fails w (n + i) = true ->
  exists e, (run_many w n rows c).2 = Raise e.
Proof.
  induction rows as [| q rest IH]; intros n c i p Hi Hbad; [discriminate |].
  cbn. unfold txn_bind, exec_insert_process.
  destruct (process_snapshot (working c)); [| eexists; reflexivity].
  destruct (process_binds q) eqn:Eq; cbn; [| eexists; reflexivity].
  destruct (stmt_fails w n) eqn:En; [eexists; reflexivity |].
  destruct i as [| i]; cbn in Hi.
  - injection Hi as ->. rewrite Nat.add_0_r in Hbad. destruct Hbad; congruence.
  - apply (IH (S n) _ i p Hi). now rewrite Nat.add_succ_l, <- Nat.add_succ_r.
Qed.

Lemma database_eta db :
  {| system_snapshot := system_snapshot db; process_snapshot := process_snapshot db |} = db.
Proof. now destruct db. Qed.

(** C8: [insert_process_snapshots] stores the whole list or nothing: either
    it returns normally and the table holds its old rows followed by every
    row of the list, or it raises and the database is what it was; a row
    whose write fails puts the call in the second case; and on an empty list,
    with the database reachable and its table present, it returns normally
    and changes nothing. *)
Theorem insert_process_snapshots_atomic (w : io) (db : database)
    (snapshots : list ProcessSnapshot) :
  ((exists rows,
       process_snapshot db = Some rows /\
       insert_process_snapshots w db snapshots =
         ({| system_snapshot := system_snapshot db;
             process_snapshot := Some (rows ++ snapshots) |}, Ok tt)) \/
   (exists e, insert_process_snapshots w db snapshots = (db, Raise e))) /\
  (forall i p, snapshots !! i = Some p ->
     process_binds p = false \/ stmt_fails w i = true ->
     exists e, insert_process_snapshots w db snapshots = (db, Raise e)) /\
  (snapshots = [] -> open_fails w = false -> commit_fails w = false ->
   is_Some (process_snapshot db) ->
   insert_process_snapshots w db snapshots = (db, Ok tt)).
Proof.
  unfold insert_process_snapshots, with_connection, connect.
  destruct (open_fails w) eqn:Eopen.
  { split; [right; eexists; reflexivity |].
    split; [intros; eexists; reflexivity | discriminate]. }
  unfold txn_bind, executemany, commit, close. cbn.
  destruct (process_snapshot db) as [rows |] eqn:Etable.
  2: { split; [right; eexists; reflexivity |].
       split; [intros; eexists; reflexivity |].
       intros _ _ _ [? ?]. discriminate. }
  set (conn := {| committed := db; working := db |}).
  pose proof (run_many_committed w snapshots 0 conn) as Hc.
  destruct (run_many w 0 snapshots conn) as [c' [[] | e]] eqn:Erun; cbn in Hc.
  - pose proof (run_many_ok _ _ _ _ _ Erun) as [Hs Hp]. cbn in Hs, Hp.
    rewrite Etable in Hp.
    cbn in Hp.
    assert (Hw : working c' = {| system_snapshot := system_snapshot db;
                                 process_snapshot := Some (rows ++ snapshots) |}).
    { destruct (working c'). cbn in Hs, Hp. now subst. }
    destruct (commit_fails w) eqn:Ecommit; cbn.
    + rewrite Hc. split; [right; eexists; reflexivity |].
      split; [intros; eexists; reflexivity | discriminate].
    + rewrite Hw. split; [left; exists rows; split; reflexivity |].
      split.
      * intros i p Hi Hbad.
        destruct (run_many_row_fails w snapshots 0 conn i p Hi Hbad) as [e He].
        rewrite Erun in He. discriminate.
      * intros -> _ _ _. rewrite app_nil_r, <- Etable. now rewrite database_eta.
  - rewrite Hc. split; [right; eexists; reflexivity |].
    split; [intros; eexists; reflexivity |].
    intros -> _ _ _. discriminate.
Qed.

(** two rows of which the second cannot be written: nothing is stored *)
Lemma insert_process_snapshots_atomic_witness :
  let row := fun id mb => {| p_timestamp := 100; pid := id; process_name := "X";
                             rss_mb := mb; vms_mb := 0; shared_mb := 0;
                             cpu_percent := 0%Q; is_foreground := 0 |} in
  let w := {| open_fails := false; stmt_fails := fun n => Nat.eqb n 1;
              commit_fails := false |} in
  let db := {| system_snapshot := Some []; process_snapshot := Some [row 7 10] |} in
  exists e, insert_process_snapshots w db [row 1 20; row 2 30] = (db, Raise e).
Proof.
  intros row w db.
  destruct (insert_process_snapshots_atomic w db [row 1 20; row 2 30]) as (_ & H & _).
  apply (H 1%nat (row 2 30)); [reflexivity | right; reflexivity].
Defined.

(** ** Grouping and ranking processes *)

Lemma group_fold_lookup (l : list ProcessSnapshot) :
  forall (m : gmap (string * Z) group_acc) (k : string * Z),
    fold_left group_step l m !! k =
      match m !! k, rows_of_group l k with
      | Some a, g => Some (fold_left acc_step g a)
      | None, [] => None
      | None, p :: g => Some (fold_left acc_step g (acc_first p))
      end.
Proof.
  unfold rows_of_group.
  induction l as [| p l IH]; intros m k; cbn [fold_left].
  - rewrite filter_nil. destruct (m !! k); reflexivity.
  - rewrite IH. unfold group_step. rewrite filter_cons.
    destruct (decide (group_key p = k)) as [<- | Hne].
    + destruct (m !! group_key p) as [a |] eqn:E; rewrite lookup_insert_eq; reflexivity.
    + destruct (m !! group_key p) as [a |] eqn:E;
        rewrite lookup_insert_ne by exact Hne; reflexivity.
Qed.

Lemma acc_fold (g : list ProcessSnapshot) : forall a,
  let r := fold_left acc_step g a in
  acc_sum r = acc_sum a + total rss_mb g /\
  acc_count r = acc_count a + Z.of_nat (length g) /\
  acc_foreground r = acc_foreground a + total is_foreground g /\
  acc_max a <= acc_max r /\
  (forall p, p ∈ g -> rss_mb p <= acc_max r) /\
  (acc_max r = acc_max a \/ exists p, p ∈ g /\ rss_mb p = acc_max r).
Proof.
  induction g as [| q g IH]; intros a; cbn zeta.
  - cbn. repeat split; try lia. intros p Hp. inversion Hp.
  - cbn [fold_left]. specialize (IH (acc_step a q)). cbn zeta in IH.
    destruct IH as (Hs & Hc & Hf & Hm & Hall & Hex).
    cbn [acc_step acc_sum acc_count acc_foreground acc_max] in Hs, Hc, Hf, Hm, Hex.
    cbn [total foldr length]. fold (total rss_mb g). fold (total is_foreground g).
    repeat split; try lia.
    + intros p Hp. apply elem_of_cons in Hp as [-> | Hp]; [lia | apply Hall, Hp].
    + destruct Hex as [Hex | (p & Hp & Hex)].
      * destruct (Z.max_spec (acc_max a) (rss_mb q)) as [[_ Hmax] | [_ Hmax]].
        -- right. exists q. split; [apply list_elem_of_here | lia].
        -- left. lia.
      * right. exists p. split; [apply list_elem_of_further, Hp | exact Hex].
Qed.

(** The accumulator of a key is there exactly when the key has rows, and it
    holds the maximum, the sums and the count of those rows. *)
Lemma group_lookup_spec (selected : list ProcessSnapshot) (k : string * Z) :
  match fold_left group_step selected ∅ !! k with
  | None => rows_of_group selected k = []
  | Some a =>
      rows_of_group selected k <> [] /\
      is_max_rss (acc_max a) (rows_of_group selected k) /\
      acc_sum a = total rss_mb (rows_of_group selected k) /\
      acc_count a = Z.of_nat (length (rows_of_group selected k)) /\
      acc_foreground a = total is_foreground (rows_of_group selected k)
  end.
Proof.
  rewrite group_fold_lookup, lookup_empty.
  destruct (rows_of_group selected k) as [| p g]; [reflexivity |].
  pose proof (acc_fold g (acc_first p)) as H. cbn zeta in H.
  destruct H as (Hs & Hc & Hf & Hm & Hall & Hex).
  cbn [acc_first acc_sum acc_count acc_foreground acc_max] in Hs, Hc, Hf, Hm, Hex.
  split; [discriminate |]. split; [| split; [| split]].
  - split.
    + destruct Hex as [Hex | (q & Hq & Hex)].
      * exists p. split; [apply list_elem_of_here | now rewrite Hex].
      * exists q. split; [apply list_elem_of_further, Hq | exact Hex].
    + intros q Hq. apply elem_of_cons in Hq as [-> | Hq]; [exact Hm | apply Hall, Hq].
  - cbn [total foldr]. fold (total rss_mb g). lia.
  - cbn [length]. lia.
  - cbn [total foldr]. fold (total is_foreground g). lia.
Qed.

Lemma insert_by_max_perm t sorted : insert_by_max t sorted ≡ₚ t :: sorted.
Proof.
  induction sorted as [| u rest IH]; cbn; [reflexivity |].
  destruct (max_rss_mb u <? max_rss_mb t); [reflexivity |].
  rewrite IH. apply perm_swap.
Qed.

Lemma order_fold_perm l acc :
  fold_left (fun acc t => insert_by_max t acc) l acc ≡ₚ acc ++ l.
Proof.
  revert acc. induction l as [| t l IH]; intros acc; cbn.
  - now rewrite app_nil_r.
  - rewrite IH, insert_by_max_perm. apply Permutation_middle.
Qed.

Lemma order_by_max_perm l : order_by_max l ≡ₚ l.
Proof. unfold order_by_max. now rewrite order_fold_perm. Qed.

Lemma insert_by_max_sorted t sorted :
  StronglySorted (fun a b => max_rss_mb b <= max_rss_mb a) sorted ->
  StronglySorted (fun a b => max_rss_mb b <= max_rss_mb a) (insert_by_max t sorted).
Proof.
  induction 1 as [| u rest Hrest IH Hu]; cbn.
  - repeat constructor.
  - destruct (Z.ltb_spec (max_rss_mb u) (max_rss_mb t)) as [Hlt | Hge].
    + constructor; [constructor; assumption |].
      constructor; [lia |].
      eapply Forall_impl; [exact Hu |]. cbn. intros; lia.
    + constructor; [exact IH |].
      rewrite insert_by_max_perm. constructor; [exact Hge | exact Hu].
Qed.

Lemma order_by_max_sorted l :
  StronglySorted (fun a b => max_rss_mb b <= max_rss_mb a) (order_by_max l).
Proof.
  unfold order_by_max.
  assert (H : forall acc,
             StronglySorted (fun a b => max_rss_mb b <= max_rss_mb a) acc ->
             StronglySorted (fun a b => max_rss_mb b <= max_rss_mb a)
               (fold_left (fun acc t => insert_by_max t acc) l acc)).
  { induction l as [| t l IH]; intros acc Hacc; cbn; [exact Hacc |].
    apply IH, insert_by_max_sorted, Hacc. }
  apply H. constructor.
Qed.

Module AvgFacts.
Local Open Scope Q_scope.

Lemma round_float_unit x :
  0 <= x <= 1 -> exists q, round_float x = Finite q /\ 0 <= q <= 1.
Proof.
  intros [H0 H1]. destruct (Qeq_bool x 0) eqn:E.
  - exists 0. unfold round_float. rewrite E. split; [reflexivity | lra].
  - assert (Hx : 0 < x).
    { apply Qeq_bool_neq in E. destruct (Qlt_le_dec 0 x) as [H | H]; [exact H |].
      exfalso. apply E. lra. }
    assert (Hhi : round_val x <= 1).
    { apply round_val_upper; [| exact Hx | exact H1].
      exists 1%Z, 0%Z. split; [reflexivity | split; [lia | reflexivity]]. }
    assert (Hlo : 0 <= round_val x).
    { unfold round_val. apply Qmult_le_0_compat.
      - change 0 with (inject_Z 0). rewrite <- Zle_Qle. apply rne_lower.
        change (inject_Z 0) with 0.
        apply Qle_shift_div_l; [apply two_pow_pos | lra].
      - apply Qlt_le_weak, two_pow_pos. }
    exists (round_val x). split; [| split; assumption].
    apply (round_float_pos x (round_val x) Hx); [reflexivity | | exact Hlo].
    apply Qle_lt_trans with 1; [exact Hhi |].
    change 1 with (2 ^ 0). apply two_pow_lt. lia.
Qed.

(** an average of zeros and ones is a ratio between 0 and 1 *)
Lemma sql_avg_unit (s n : Z) :
  (0 <= s <= n)%Z -> (0 < n)%Z -> exists q, sql_avg s n = Finite q /\ 0 <= q <= 1.
Proof.
  intros Hs Hn. apply round_float_unit.
  assert (Hq : 0 < inject_Z n) by (change 0 with (inject_Z 0); rewrite <- Zlt_Qlt; lia).
  split.
  - apply Qle_shift_div_l; [exact Hq |]. rewrite Qmult_0_l.
    change 0 with (inject_Z 0). rewrite <- Zle_Qle. lia.
  - apply Qle_shift_div_r; [exact Hq |]. rewrite Qmult_1_l. rewrite <- Zle_Qle. lia.
Qed.

End AvgFacts.
Import AvgFacts.

Lemma total_flags (g : list ProcessSnapshot) :
  Forall (fun p => is_foreground p = 0 \/ is_foreground p = 1) g ->
  0 <= total is_foreground g <= Z.of_nat (length g).
Proof.
  induction 1 as [| p g Hp _ IH]; cbn [total foldr length]; [lia |].
  fold (total is_foreground g). lia.
Qed.

Lemma top_key_top_process k a : top_key (top_process (k, a)) = k.
Proof. now destruct k. Qed.

Lemma sql_limit_take {A} (limit : Z) (l : list A) :
  sql_limit limit l =
    take (if limit <? 0 then length l else Z.to_nat limit) l.
Proof.
  unfold sql_limit. destruct (limit <? 0); [| reflexivity].
  now rewrite firstn_all.
Qed.

Lemma rows_of_group_elem selected k p :
  p ∈ rows_of_group selected k <-> group_key p = k /\ p ∈ selected.
Proof.
  unfold rows_of_group.
  apply (list_elem_of_filter (fun q => group_key q = k)).
Qed.

(** the keys with an accumulator are the keys of the selected rows *)
Lemma group_dom (selected : list ProcessSnapshot) :
  dom (fold_left group_step selected ∅) =
    (list_to_set (map group_key selected) : gset (string * Z)).
Proof.
  apply set_eq. intros k. rewrite elem_of_dom, elem_of_list_to_set.
  pose proof (group_lookup_spec selected k) as H.
  destruct (fold_left group_step selected ∅ !! k) as [a |] eqn:E.
  - destruct H as (Hne & _). split; [intros _ | intros _; eexists; reflexivity].
    destruct (rows_of_group selected k) as [| p g] eqn:Eg; [congruence |].
    assert (Hp : p ∈ rows_of_group selected k) by (rewrite Eg; apply list_elem_of_here).
    apply rows_of_group_elem in Hp as [<- Hp].
    apply list_elem_of_In, in_map, list_elem_of_In, Hp.
  - split; [intros [? ?]; discriminate |].
    intros Hk. apply list_elem_of_In, in_map_iff in Hk as (p & Hp & Hin).
    assert (Hg : p ∈ rows_of_group selected k).
    { apply rows_of_group_elem. split; [exact Hp | apply list_elem_of_In, Hin]. }
    rewrite H in Hg. inversion Hg.
Qed.

Lemma in_window_iff_p now window_minutes (p : ProcessSnapshot) :
  Is_true (in_window now window_minutes (p_timestamp p)) <->
  now - window_minutes * 60 <= p_timestamp p.
Proof. apply in_window_iff. Qed.

Lemma top_process_fields k a :
  max_rss_mb (top_process (k, a)) = acc_max a /\
  avg_rss_mb (top_process (k, a)) = sql_avg (acc_sum a) (acc_count a) /\
  times_seen (top_process (k, a)) = acc_count a /\
  foreground_ratio (top_process (k, a)) = sql_avg (acc_foreground a) (acc_count a).
Proof. destruct k. repeat split. Qed.

(** what the ranked, cut list is, in terms of the accumulators *)
Lemma ranked_groups (selected : list ProcessSnapshot) (limit : Z) :
  let groups := fold_left group_step selected ∅ in
  let ranked := order_by_max (map top_process (map_to_list groups)) in
  let n := if limit <? 0 then length ranked else Z.to_nat limit in
  let result := sql_limit limit ranked in
  result = take n ranked /\
  ranked = result ++ drop n ranked /\
  length ranked = size (list_to_set (map group_key selected) : gset (string * Z)) /\
  NoDup (map top_key ranked) /\
  StronglySorted (fun a b => max_rss_mb b <= max_rss_mb a) ranked /\
  (forall t, t ∈ ranked <->
             exists a, groups !! top_key t = Some a /\ t = top_process (top_key t, a)).
Proof.
  intros groups ranked n result.
  assert (Hres : result = take n ranked) by apply sql_limit_take.
  split; [exact Hres |].
  split; [rewrite Hres; symmetry; apply take_drop |].
  assert (Hperm : ranked ≡ₚ map top_process (map_to_list groups))
    by apply order_by_max_perm.
  assert (Hkeys : map top_key (map top_process (map_to_list groups))
                  = (map_to_list groups).*1).
  { rewrite map_map. apply map_ext. intros [k a]. apply top_key_top_process. }
  split; [| split; [| split]].
  - rewrite Hperm, length_map, length_map_to_list.
    rewrite <- group_dom. symmetry. apply size_dom.
  - rewrite (Permutation_map top_key Hperm), Hkeys. apply NoDup_fst_map_to_list.
  - apply order_by_max_sorted.
  - intros t. rewrite Hperm. split.
    + intros Ht. apply list_elem_of_In, in_map_iff in Ht as ([k a] & <- & Hin).
      apply list_elem_of_In, elem_of_map_to_list in Hin.
      rewrite top_key_top_process. eauto.
    + intros (a & Ha & ->). apply list_elem_of_In, in_map, list_elem_of_In.
      apply elem_of_map_to_list, Ha.
Qed.



(** ** The sampling loop *)

Lemma catchable_bind {A B} (m : res A) (f : A -> res B) :
  catchable m -> (forall a, catchable (f a)) -> catchable (m ≫= f).
Proof. destruct m; cbn; [intros _ H; apply H | intros H _; exact H]. Qed.

Lemma catchable_run_command o : catchable (run_command o).
Proof. destruct o as [| rc out]; cbn; [reflexivity |]. now destruct (Z.eqb rc 0). Qed.

Lemma catchable_py_int s : catchable (py_int s).
Proof.
  unfold py_int. destruct (scan_sign _) as [negative cs].
  destruct (scan_digits false cs) as [ds rest].
  now destruct (is_nil ds || negb (is_nil rest)).
Qed.

Lemma catchable_py_float s : catchable (py_float s).
Proof.
  unfold py_float. destruct (scan_sign _) as [negative cs].
  destruct (_ || _); [exact I |].
  destruct (String.eqb _ _); [exact I |].
  now destruct (parse_decimal cs).
Qed.

Lemma catchable_int_of_float x : catchable (int_of_float x).
Proof. now destruct x. Qed.

Lemma catchable_fmul_int c n : catchable (fmul_int c n).
Proof.
  unfold fmul_int, float_of_int. now destruct (round_float (inject_Z n)).
Qed.

Lemma catchable_page_size_in_lines lines : catchable (page_size_in_lines lines).
Proof.
  induction lines as [| line rest IH]; cbn; [exact I |].
  destruct (contains _ line); [| exact IH].
  assert (H : forall parts, match page_size_in_parts parts with
                            | Some r => catchable r
                            | None => True
                            end).
  { induction parts as [| part parts IHp]; cbn; [exact I |].
    destruct parts as [| next parts']; [exact I |].
    destruct (String.eqb part "of"); [apply catchable_py_int | exact IHp]. }
  specialize (H (split_ws line)).
  destruct (page_size_in_parts (split_ws line)); [exact H | exact IH].
Qed.

Lemma catchable_get_page_size o : catchable (get_page_size o).
Proof.
  apply catchable_bind; [apply catchable_run_command |].
  intros out. apply catchable_page_size_in_lines.
Qed.

Lemma catchable_parse_vm_stat o : catchable (parse_vm_stat o).
Proof.
  apply catchable_bind; [apply catchable_run_command |]. intros out. exact I.
Qed.

Lemma catchable_swap_value token : catchable (swap_value token).
Proof.
  unfold swap_value.
  destruct (_ || _).
  - apply catchable_bind; [apply catchable_py_float | apply catchable_int_of_float].
  - destruct (_ || _).
    + apply catchable_bind; [apply catchable_py_float |]. intros f.
      apply catchable_bind; [apply catchable_fmul_int | apply catchable_int_of_float].
    + apply catchable_bind; [apply catchable_py_float | apply catchable_int_of_float].
Qed.

Lemma catchable_parse_swap_used_mb s : catchable (parse_swap_used_mb s).
Proof.
  unfold parse_swap_used_mb.
  induction (split_ws _) as [| tok tokens IH]; cbn; [exact I |].
  destruct tokens as [| next tokens']; [exact I |].
  destruct (String.eqb _ _); [apply catchable_swap_value | exact IH].
Qed.

Lemma catchable_pressure_of free_mb total_mb swap : catchable (pressure_of free_mb total_mb swap).
Proof.
  unfold pressure_of. apply catchable_bind; [apply catchable_fmul_int |].
  intros high_mark. destruct (_ || _); [exact I |].
  apply catchable_bind; [apply catchable_fmul_int |].
  intros medium_mark. now destruct (_ || _).
Qed.

Lemma catchable_get_system_metrics env : catchable (get_system_metrics env).
Proof.
  unfold get_system_metrics.
  apply catchable_bind; [apply catchable_run_command |]. intros text.
  apply catchable_bind; [apply catchable_py_int |]. intros bytes.
  apply catchable_bind; [apply catchable_get_page_size |]. intros page_size.
  apply catchable_bind; [apply catchable_parse_vm_stat |]. intros pages.
  unfold system_metrics_of.
  apply catchable_bind; [apply catchable_run_command |]. intros out.
  apply catchable_bind; [apply catchable_parse_swap_used_mb |]. intros swap.
  apply catchable_bind; [apply catchable_pressure_of |]. intros pressure. exact I.
Qed.

Lemma catchable_run_many w rows : forall n c, catchable (run_many w n rows c).2.
Proof.
  induction rows as [| p rest IH]; intros n c; cbn; [exact I |].
  unfold txn_bind, exec_insert_process.
  destruct (process_snapshot (working c)); [| reflexivity].
  destruct (process_binds p); cbn; [| reflexivity].
  destruct (stmt_fails w n); [reflexivity | apply IH].
Qed.

Lemma catchable_insert_process_snapshots w db rows :
  catchable (insert_process_snapshots w db rows).2.
Proof.
  unfold insert_process_snapshots, with_connection, connect.
  destruct (open_fails w); [reflexivity |].
  unfold txn_bind, executemany, commit. cbn.
  destruct (process_snapshot db); [| reflexivity].
  pose proof (catchable_run_many w rows 0 {| committed := db; working := db |}) as H.
  destruct (run_many w 0 rows _) as [c' [[] | e]]; cbn in *; [| exact H].
  now destruct (commit_fails w).
Qed.

Lemma catchable_insert_system_snapshot w db s :
  catchable (insert_system_snapshot w db s).2.
Proof.
  unfold insert_system_snapshot, with_connection, connect.
  destruct (open_fails w); [reflexivity |].
  unfold txn_bind, exec_insert_system, commit. cbn -[system_binds].
  destruct (system_snapshot db); [| reflexivity].
  destruct (system_binds s); cbn; [| reflexivity].
  destruct (stmt_fails w 0); cbn; [reflexivity |].
  now destruct (commit_fails w).
Qed.

(** every error of the probe, parse and store stages is an [Exception] *)
Lemma catchable_collect_once top_n env db :
  interrupted env = false -> catchable (collect_once top_n env db).2.
Proof.
  intros Hint. unfold collect_once. rewrite Hint.
  pose proof (catchable_get_system_metrics (probe env)) as Hm.
  destruct (get_system_metrics (probe env)) as [snap | e]; [| exact Hm].
  pose proof (catchable_insert_system_snapshot (system_io env) db snap) as Hs.
  destruct (insert_system_snapshot (system_io env) db snap) as [db1 [[] | e]];
    [| exact Hs].
  destruct (is_nil _); [exact I |].
  pose proof (catchable_insert_process_snapshots (process_io env) db1
                (get_process_metrics top_n (process_clock env) (processes env)
                   (get_frontmost_app_name (osascript env)))) as Hp.
  destruct (insert_process_snapshots _ _ _) as [db2 [[] | e]]; [exact I | exact Hp].
Qed.

(** what one more pass does to a run that is still looping *)
Lemma main_loop_next top_n envs fuel : forall i db log db' log',
  main_loop top_n fuel envs i db log = (db', log', Looping) ->
  main_loop top_n (S fuel) envs i db log =
    match collect_once top_n (envs (i + fuel)%nat) db' with
    | (db'', Ok ev) => (db'', log' ++ [ev; Slept], Looping)
    | (db'', Raise e) =>
        if is_Exception e then (db'', log' ++ [Failed e; Slept], Looping)
        else (db'', log', Ended e)
    end.
Proof.
  induction fuel as [| fuel IH]; intros i db log db' log' H.
  - cbn in H. injection H as <- <-. cbn. rewrite Nat.add_0_r.
    destruct (collect_once top_n (envs i) db) as [db1 [ev | e]]; [reflexivity |].
    now destruct (is_Exception e).
  - cbn [main_loop] in H. change (main_loop top_n (S (S fuel)) envs i db log)
      with (match collect_once top_n (envs i) db with
            | (db1, Ok ev) => main_loop top_n (S fuel) envs (S i) db1 (log ++ [ev; Slept])
            | (db1, Raise e) =>
                if is_Exception e
                then main_loop top_n (S fuel) envs (S i) db1 (log ++ [Failed e; Slept])
                else (db1, log, Ended e)
            end).
    replace (i + S fuel)%nat with (S i + fuel)%nat by lia.
    destruct (collect_once top_n (envs i) db) as [db1 [ev | e]].
    + apply IH, H.
    + destruct (is_Exception e); [apply IH, H | discriminate].
Qed.

Lemma main_loop_alive top_n envs :
  (forall i, interrupted (envs i) = false) ->
  forall fuel i db log, exists db' log',
    main_loop top_n fuel envs i db log = (db', log', Looping).
Proof.
  intros Hquiet. induction fuel as [| fuel IH]; intros i db log; cbn.
  - eexists _, _. reflexivity.
  - pose proof (catchable_collect_once top_n (envs i) db (Hquiet i)) as Hc.
    destruct (collect_once top_n (envs i) db) as [db1 [ev | e]]; cbn in Hc.
    + apply IH.
    + rewrite Hc. apply IH.
Qed.



Example sampling_loop_log :
  let dead := {| hw_memsize := NotStarted; vm_stat_for_page_size := NotStarted;
                 vm_stat_for_pages := NotStarted; vm_swapusage := NotStarted;
                 clock := 0 |} in
  let env := {| probe := dead; system_io := reliable; osascript := OsaRaised;
                process_clock := 0; processes := []; process_io := reliable;
                interrupted := false |} in
  main 25 reliable (fun _ => env) 2
    {| system_snapshot := None; process_snapshot := None |}
  = ({| system_snapshot := Some []; process_snapshot := Some [] |},
     [Started; Failed FileNotFoundError; Slept; Failed FileNotFoundError; Slept],
     Looping).
Proof. reflexivity. Qed.

(** * Further properties *)

(** ** The store *)

Lemma init_db_result w db :
  init_db w db = (db, Raise SqliteError) \/
  init_db w db = (create_system_table db, Raise SqliteError) \/
  init_db w db = (create_process_table (create_system_table db), Raise SqliteError) \/
  init_db w db = (create_process_table (create_system_table db), Ok tt).
Proof.
  unfold init_db, with_connection, connect, txn_bind, exec_ddl, commit, close.
  destruct (open_fails w); cbn; [now left |].
  destruct (stmt_fails w 0); cbn; [now left |].
  destruct (stmt_fails w 1); cbn; [now right; left |].
  destruct (stmt_fails w 2); cbn; [now right; right; left |].
  destruct (stmt_fails w 3); cbn; [now right; right; left |].
  destruct (stmt_fails w 4); cbn; [now right; right; left |].
  destruct (commit_fails w); cbn; [now right; right; left | now right; right; right].
Qed.

Lemma create_if_absent_keeps {A} (t : option (list A)) rows :
  t = Some rows -> create_if_absent t = Some rows.
Proof. now intros ->. Qed.

(** X1: [init_db] never loses a row, whether it returns or raises; when it
    returns, both tables exist, and a second run on a storage engine that
    does not fail returns again and changes nothing. *)
Theorem init_db_idempotent (w : io) (db : database) :
  (forall rows, system_snapshot db = Some rows ->
                system_snapshot (init_db w db).1 = Some rows) /\
  (forall rows, process_snapshot db = Some rows ->
                process_snapshot (init_db w db).1 = Some rows) /\
  (forall db', init_db w db = (db', Ok tt) ->
     is_Some (system_snapshot db') /\ is_Some (process_snapshot db') /\
     init_db reliable db' = (db', Ok tt)).
Proof.
  destruct db as [st pt].
  destruct (init_db_result w {| system_snapshot := st; process_snapshot := pt |})
    as [E | [E | [E | E]]]; rewrite E; cbn.
  - split; [auto | split; [auto | discriminate]].
  - split; [intros rows ->; reflexivity | split; [auto | discriminate]].
  - split; [intros rows ->; reflexivity |].
    split; [intros rows ->; reflexivity | discriminate].
  - split; [intros rows ->; reflexivity |].
    split; [intros rows ->; reflexivity |].
    intros db' [= <-]. cbn.
    split; [destruct st; cbn; eauto |].
    split; [destruct pt; cbn; eauto |].
    destruct st, pt; reflexivity.
Qed.

(** a database without tables: both are created empty *)
Lemma init_db_idempotent_witness :
  let db' := {| system_snapshot := Some []; process_snapshot := Some [] |} in
  init_db reliable db' = (db', Ok tt).
Proof.
  intros db'.
  destruct (init_db_idempotent reliable
              {| system_snapshot := None; process_snapshot := None |}) as (_ & _ & H).
  apply (H db' eq_refl).
Defined.

(** X2: [insert_system_snapshot] stores its row or nothing.  It returns,
    with the row appended and the process table untouched, exactly when the
    database opens, the table exists, every integer fits 64 bits and neither
    the statement nor the commit fails; otherwise it raises and the database
    is what it was, and the error is OverflowError when only the 64-bit
    bound is broken. *)
Theorem insert_system_snapshot_atomic (w : io) (db : database) (s : SystemSnapshot) :
  (forall rows,
      open_fails w = false -> system_snapshot db = Some rows ->
      system_binds s = true -> stmt_fails w 0 = false -> commit_fails w = false ->
      insert_system_snapshot w db s =
        ({| system_snapshot := Some (rows ++ [s]);
            process_snapshot := process_snapshot db |}, Ok tt)) /\
  (open_fails w = true \/ system_snapshot db = None \/ system_binds s = false \/
   stmt_fails w 0 = true \/ commit_fails w = true ->
   exists e, insert_system_snapshot w db s = (db, Raise e)) /\
  (open_fails w = false -> is_Some (system_snapshot db) -> system_binds s = false ->
   insert_system_snapshot w db s = (db, Raise OverflowError)).
Proof.
  unfold insert_system_snapshot, with_connection, connect, txn_bind,
    exec_insert_system, commit, close.
  split; [| split].
  - intros rows -> Hrows Hb -> ->. cbn -[system_binds]. rewrite Hrows, Hb. reflexivity.
  - intros H.
    destruct (open_fails w); cbn -[system_binds]; [eexists; reflexivity |].
    destruct (system_snapshot db); cbn -[system_binds]; [| eexists; reflexivity].
    destruct (system_binds s); cbn; [| eexists; reflexivity].
    destruct (stmt_fails w 0); cbn; [eexists; reflexivity |].
    destruct (commit_fails w); cbn; [eexists; reflexivity |].
    destruct H as [H | [H | [H | [H | H]]]]; discriminate.
  - intros -> [rows Hrows] Hb. cbn -[system_binds]. rewrite Hrows, Hb. reflexivity.
Qed.

(** a timestamp beyond 64 bits *)
Lemma insert_system_snapshot_atomic_witness :
  let s := {| timestamp := 2 ^ 63; mem_total_mb := 16384; mem_used_mb := 7000;
              mem_free_mb := 4000; mem_compressed_mb := 1000; swap_used_mb := 0;
              memory_pressure := "low" |} in
  let db := {| system_snapshot := Some []; process_snapshot := Some [] |} in
  insert_system_snapshot reliable db s = (db, Raise OverflowError).
Proof.
  intros s db.
  destruct (insert_system_snapshot_atomic reliable db s) as (_ & _ & H).
  apply H; [reflexivity | eexists; reflexivity | reflexivity].
Defined.

Lemma run_many_ok_binds w rows : forall n c c',
  run_many w n rows c = (c', Ok tt) -> Forall (fun p => process_binds p = true) rows.
Proof.
  induction rows as [| p rest IH]; intros n c c'; cbn; [constructor |].
  unfold txn_bind, exec_insert_process.
  destruct (process_snapshot (working c)); [| discriminate].
  destruct (process_binds p) eqn:Ep; cbn; [| discriminate].
  destruct (stmt_fails w n); [discriminate |].
  intros H. constructor; [exact Ep | eapply IH, H].
Qed.

Lemma insert_process_snapshots_result w db l :
  (exists rows,
      process_snapshot db = Some rows /\
      Forall (fun p => process_binds p = true) l /\
      insert_process_snapshots w db l =
        ({| system_snapshot := system_snapshot db;
            process_snapshot := Some (rows ++ l) |}, Ok tt)) \/
  (exists e, insert_process_snapshots w db l = (db, Raise e)).
Proof.
  unfold insert_process_snapshots, with_connection, connect.
  destruct (open_fails w); [right; eexists; reflexivity |].
  unfold txn_bind, executemany, commit, close. cbn.
  destruct (process_snapshot db) as [rows |] eqn:Etable;
    [| right; eexists; reflexivity].
  set (conn := {| committed := db; working := db |}).
  pose proof (run_many_committed w l 0 conn) as Hc.
  destruct (run_many w 0 l conn) as [c' [[] | e]] eqn:Erun; cbn in Hc.
  - pose proof (run_many_ok _ _ _ _ _ Erun) as [Hs Hp]. cbn in Hs, Hp.
    rewrite Etable in Hp. cbn in Hp.
    destruct (commit_fails w); cbn; [rewrite Hc; right; eexists; reflexivity |].
    left. exists rows. split; [reflexivity |].
    split; [eapply run_many_ok_binds, Erun |].
    destruct (working c'). cbn in Hs, Hp. now subst.
  - rewrite Hc. right. eexists. reflexivity.
Qed.

Lemma insert_system_snapshot_result w db s :
  (exists rows,
      system_snapshot db = Some rows /\ system_binds s = true /\
      insert_system_snapshot w db s =
        ({| system_snapshot := Some (rows ++ [s]);
            process_snapshot := process_snapshot db |}, Ok tt)) \/
  (exists e, insert_system_snapshot w db s = (db, Raise e)).
Proof.
  unfold insert_system_snapshot, with_connection, connect, txn_bind,
    exec_insert_system, commit, close.
  destruct (open_fails w); cbn -[system_binds]; [right; eexists; reflexivity |].
  destruct (system_snapshot db) as [rows |]; cbn -[system_binds];
    [| right; eexists; reflexivity].
  destruct (system_binds s) eqn:Eb; cbn; [| right; eexists; reflexivity].
  destruct (stmt_fails w 0); cbn; [right; eexists; reflexivity |].
  destruct (commit_fails w); cbn; [right; eexists; reflexivity |].
  left. exists rows. repeat split.
Qed.

Lemma grows_refl db : grows db db.
Proof. split; intros rows H; exists []; now rewrite app_nil_r. Qed.

Lemma grows_trans a b c : grows a b -> grows b c -> grows a c.
Proof.
  intros [Hs1 Hp1] [Hs2 Hp2]. split; intros rows H.
  - destruct (Hs1 rows H) as [m1 E1]. destruct (Hs2 _ E1) as [m2 E2].
    exists (m1 ++ m2). now rewrite app_assoc.
  - destruct (Hp1 rows H) as [m1 E1]. destruct (Hp2 _ E1) as [m2 E2].
    exists (m1 ++ m2). now rewrite app_assoc.
Qed.

(** what one pass leaves in the database: nothing, its system snapshot, or
    its system snapshot and its process rows *)
Lemma collect_once_stores top_n env db :
  let db' := (collect_once top_n env db).1 in
  db' = db \/
  exists snap rows,
    get_system_metrics (probe env) = Ok snap /\
    system_snapshot db = Some rows /\ system_binds snap = true /\
    let db1 := {| system_snapshot := Some (rows ++ [snap]);
                  process_snapshot := process_snapshot db |} in
    (db' = db1 \/
     exists prows,
       process_snapshot db = Some prows /\
       let procs := get_process_metrics top_n (process_clock env) (processes env)
                      (get_frontmost_app_name (osascript env)) in
       Forall (fun p => process_binds p = true) procs /\
       db' = {| system_snapshot := Some (rows ++ [snap]);
                process_snapshot := Some (prows ++ procs) |}).
Proof.
  unfold collect_once.
  destruct (interrupted env); [now left |].
  destruct (get_system_metrics (probe env)) as [snap | e]; [| now left].
  destruct (insert_system_snapshot_result (system_io env) db snap)
    as [(rows & Hrows & Hb & E) | (e & E)]; rewrite E; [| now left].
  right. exists snap, rows. split; [reflexivity |]. split; [exact Hrows |].
  split; [exact Hb |]. cbn zeta.
  set (db1 := {| system_snapshot := Some (rows ++ [snap]);
                 process_snapshot := process_snapshot db |}).
  destruct (is_nil _); [now left |].
  destruct (insert_process_snapshots_result (process_io env) db1
              (get_process_metrics top_n (process_clock env) (processes env)
                 (get_frontmost_app_name (osascript env))))
    as [(prows & Hprows & Hbs & E') | (e & E')]; rewrite E'; [| now left].
  right. exists prows. split; [exact Hprows |]. split; [exact Hbs | reflexivity].
Qed.

Lemma collect_once_grows top_n env db : grows db (collect_once top_n env db).1.
Proof.
  destruct (collect_once_stores top_n env db)
    as [-> | (snap & rows & _ & Hrows & _ & [-> | (prows & Hprows & _ & ->)])].
  - apply grows_refl.
  - split; intros r H; cbn.
    + rewrite Hrows in H. injection H as <-. eauto.
    + exists []. now rewrite app_nil_r.
  - split; intros r H; cbn.
    + rewrite Hrows in H. injection H as <-. eauto.
    + rewrite Hprows in H. injection H as <-. eauto.
Qed.

Lemma collect_once_fit top_n env db :
  stored_fit db -> stored_fit (collect_once top_n env db).1.
Proof.
  intros [Hs Hp].
  destruct (collect_once_stores top_n env db)
    as [-> | (snap & rows & _ & Hrows & Hb & [-> | (prows & Hprows & Hbs & ->)])].
  - split; assumption.
  - split; cbn; [| exact Hp].
    intros r [= <-]. apply Forall_app. split; [apply Hs, Hrows | now constructor].
  - split; cbn.
    + intros r [= <-]. apply Forall_app. split; [apply Hs, Hrows | now constructor].
    + intros r [= <-]. apply Forall_app. split; [apply Hp, Hprows | exact Hbs].
Qed.

Lemma main_loop_keeps (P : database -> database -> Prop) top_n envs :
  (forall db, P db db) -> (forall a b c, P a b -> P b c -> P a c) ->
  (forall env db, P db (collect_once top_n env db).1) ->
  forall fuel i db log, P db (main_loop top_n fuel envs i db log).1.1.
Proof.
  intros Hrefl Htrans Hstep.
  induction fuel as [| fuel IH]; intros i db log; cbn; [apply Hrefl |].
  pose proof (Hstep (envs i) db) as H1.
  destruct (collect_once top_n (envs i) db) as [db1 [ev | e]]; cbn in H1.
  - eapply Htrans; [exact H1 | apply IH].
  - destruct (is_Exception e); [eapply Htrans; [exact H1 | apply IH] | exact H1].
Qed.

Lemma init_db_grows w db : grows db (init_db w db).1.
Proof.
  destruct db as [st pt].
  destruct (init_db_result w {| system_snapshot := st; process_snapshot := pt |})
    as [E | [E | [E | E]]]; rewrite E; cbn;
    split; cbn; intros rows ->; exists []; now rewrite app_nil_r.
Qed.

(** X3: the collector only ever appends.  After [main] has run for any
    number of passes, however the probes and the storage behaved, every table
    that existed still starts with the rows it had, in their order. *)
Theorem main_appends_only (TOP_N_PROCESSES : Z) (startup : io)
    (envs : nat -> cycle_env) (passes : nat) (db : database) :
  grows db (main TOP_N_PROCESSES startup envs passes db).1.1.
Proof.
  unfold main. pose proof (init_db_grows startup db) as H0.
  destruct (init_db startup db) as [db0 [[] | e]]; cbn in H0; [| exact H0].
  eapply grows_trans; [exact H0 |].
  apply (main_loop_keeps grows); [apply grows_refl | apply grows_trans |].
  intros env d. apply collect_once_grows.
Qed.

Lemma init_db_fit w db : stored_fit db -> stored_fit (init_db w db).1.
Proof.
  intros [Hs Hp]. destruct db as [st pt]. cbn in Hs, Hp.
  destruct (init_db_result w {| system_snapshot := st; process_snapshot := pt |})
    as [E | [E | [E | E]]]; rewrite E; cbn; split; cbn; try assumption;
    destruct st, pt; cbn; intros rows [= <-]; auto; constructor.
Qed.



Lemma collect_once_cases top_n env db :
  let procs := get_process_metrics top_n (process_clock env) (processes env)
                 (get_frontmost_app_name (osascript env)) in
  let line := fun snap => Collected (timestamp snap) (mem_used_mb snap)
                            (memory_pressure snap) (length procs) in
  (exists e, collect_once top_n env db = (db, Raise e)) \/
  exists snap rows,
    get_system_metrics (probe env) = Ok snap /\
    system_snapshot db = Some rows /\
    let db1 := {| system_snapshot := Some (rows ++ [snap]);
                  process_snapshot := process_snapshot db |} in
    ((exists e, procs <> [] /\ collect_once top_n env db = (db1, Raise e)) \/
     (procs = [] /\ collect_once top_n env db = (db1, Ok (line snap))) \/
     (exists prows,
        procs <> [] /\ process_snapshot db = Some prows /\
        collect_once top_n env db =
          ({| system_snapshot := Some (rows ++ [snap]);
              process_snapshot := Some (prows ++ procs) |}, Ok (line snap)))).
Proof.
  cbv zeta. unfold collect_once.
  set (procs := get_process_metrics top_n (process_clock env) (processes env)
                  (get_frontmost_app_name (osascript env))).
  destruct (interrupted env); [left; eexists; reflexivity |].
  destruct (get_system_metrics (probe env)) as [snap | e];
    [| left; eexists; reflexivity].
  destruct (insert_system_snapshot_result (system_io env) db snap)
    as [(rows & Hrows & Hb & E) | (e & E)]; rewrite E;
    [| left; eexists; reflexivity].
  right. exists snap, rows. split; [reflexivity |]. split; [exact Hrows |].
  destruct (is_nil procs) eqn:Enil.
  - right. left. split; [| reflexivity].
    destruct procs; [reflexivity | discriminate].
  - assert (Hne : procs <> []) by (intros E0; rewrite E0 in Enil; discriminate).
    destruct (insert_process_snapshots_result (process_io env)
                {| system_snapshot := Some (rows ++ [snap]);
                   process_snapshot := process_snapshot db |} procs)
      as [(prows & Hprows & _ & E') | (e & E')]; rewrite E'.
    + right. right. exists prows. cbn in Hprows. repeat split; assumption.
    + left. exists e. split; [exact Hne | reflexivity].
Qed.

(** X5: the summary line of a pass tells what was stored: when the body of
    the [try] returns, exactly one system snapshot was appended, the line
    carries its timestamp, used memory and pressure, and the number of
    processes in the line is the number of process rows appended. *)
Theorem collect_once_line (TOP_N_PROCESSES : Z) (env : cycle_env)
    (db db' : database) (line : event) :
  collect_once TOP_N_PROCESSES env db = (db', Ok line) ->
  exists snap rows added,
    get_system_metrics (probe env) = Ok snap /\
    system_snapshot db = Some rows /\
    system_snapshot db' = Some (rows ++ [snap]) /\
    line = Collected (timestamp snap) (mem_used_mb snap) (memory_pressure snap)
             (length added) /\
    ((added = [] /\ process_snapshot db' = process_snapshot db) \/
     exists prows, process_snapshot db = Some prows /\
                   process_snapshot db' = Some (prows ++ added)).
Proof.
  intros H.
  destruct (collect_once_cases TOP_N_PROCESSES env db)
    as [(e & E) | (snap & rows & Hsnap & Hrows &
                   [(e & _ & E) | [(Hnil & E) | (prows & _ & Hprows & E)]])];
    rewrite E in H; try discriminate; injection H as <- <-.
  - exists snap, rows, []. rewrite Hnil. repeat split; try assumption.
    left. split; reflexivity.
  - exists snap, rows,
      (get_process_metrics TOP_N_PROCESSES (process_clock env) (processes env)
         (get_frontmost_app_name (osascript env))).
    repeat split; try assumption. right. exists prows. split; [exact Hprows | reflexivity].
Qed.



Example collect_once_partial :
  let env := {| probe := sample_probe; system_io := reliable; osascript := OsaRaised;
                process_clock := 1700000000; processes := [sample_process];
                process_io := unreachable; interrupted := false |} in
  exists snap,
    collect_once 25 env {| system_snapshot := Some []; process_snapshot := Some [] |}
    = ({| system_snapshot := Some [snap]; process_snapshot := Some [] |},
       Raise SqliteError).
Proof. eexists. vm_compute. reflexivity. Qed.

(** the same host with a store that works *)
Lemma collect_once_line_witness :
  let env := {| probe := sample_probe; system_io := reliable; osascript := OsaRaised;
                process_clock := 1700000000; processes := [sample_process];
                process_io := reliable; interrupted := false |} in
  let db := {| system_snapshot := Some []; process_snapshot := Some [] |} in
  exists snap rows added,
    get_system_metrics (probe env) = Ok snap /\
    system_snapshot db = Some rows /\
    system_snapshot (collect_once 25 env db).1 = Some (rows ++ [snap]) /\
    Collected 1700000000 0 "medium" 1 =
      Collected (timestamp snap) (mem_used_mb snap) (memory_pressure snap)
        (length added) /\
    ((added = [] /\
      process_snapshot (collect_once 25 env db).1 = process_snapshot db) \/
     exists prows, process_snapshot db = Some prows /\
                   process_snapshot (collect_once 25 env db).1 = Some (prows ++ added)).
Proof.
  intros env db.
  apply (collect_once_line 25 env db (collect_once 25 env db).1).
  vm_compute. reflexivity.
Defined.

(** ** The readers *)

(** X7: [fetch_latest_snapshot] on an empty table returns None and does not
    raise; on a table with rows it returns a stored row whose timestamp no
    stored row exceeds. *)
Theorem fetch_latest_snapshot_max (w : io) (db : database)
    (rows : list SystemSnapshot) :
  system_snapshot db = Some rows ->
  open_fails w = false -> stmt_fails w 0 = false ->
  (rows = [] -> fetch_latest_snapshot w db = Ok None) /\
  (rows <> [] ->
   exists r, fetch_latest_snapshot w db = Ok (Some r) /\ r ∈ rows /\
             Forall (fun r' => timestamp r' <= timestamp r) rows).
Proof.
  intros Hrows Hopen Hstmt.
  unfold fetch_latest_snapshot, query. rewrite Hopen, Hrows, Hstmt.
  pose proof (idx_system_timestamp_perm rows) as Hperm.
  pose proof (idx_system_timestamp_sorted rows) as Hsorted.
  split.
  - intros ->. reflexivity.
  - intros Hne. destruct (last (idx_system_timestamp rows)) as [r |] eqn:E.
    + exists r. split; [reflexivity |].
      apply last_Some in E as [init E]. rewrite E in Hperm, Hsorted.
      split.
      * rewrite <- Hperm. apply elem_of_app. right. apply list_elem_of_here.
      * rewrite <- Hperm. apply Forall_app. split; [| constructor; [lia | constructor]].
        apply StronglySorted_app in Hsorted as (Hle & _ & _).
        apply List.Forall_forall. intros x Hx.
        apply (Hle x r); [apply list_elem_of_In, Hx | apply list_elem_of_here].
    + apply last_None in E. rewrite E in Hperm.
      apply Permutation_nil in Hperm. congruence.
Qed.

(** two rows stored newest first *)
Lemma fetch_latest_snapshot_max_witness :
  let row := fun ts => {| timestamp := ts; mem_total_mb := 16384; mem_used_mb := 7000;
                          mem_free_mb := 4000; mem_compressed_mb := 1000;
                          swap_used_mb := 0; memory_pressure := "low" |} in
  exists r,
    fetch_latest_snapshot reliable
      {| system_snapshot := Some [row 900; row 700]; process_snapshot := Some [] |}
      = Ok (Some r) /\
    r ∈ [row 900; row 700] /\
    Forall (fun r' => timestamp r' <= timestamp r) [row 900; row 700].
Proof.
  intros row.
  destruct (fetch_latest_snapshot_max reliable
              {| system_snapshot := Some [row 900; row 700];
                 process_snapshot := Some [] |}
              [row 900; row 700] eq_refl eq_refl eq_refl) as [_ H].
  apply H. discriminate.
Defined.

Lemma filter_window_all now window (l : list SystemSnapshot) :
  Forall (fun s => now - window * 60 <= timestamp s) l ->
  filter (fun s => in_window now window (timestamp s)) l = l.
Proof.
  induction 1 as [| s l Hs _ IH]; [reflexivity |].
  rewrite filter_cons_True by (apply in_window_iff; exact Hs). now rewrite IH.
Qed.

Lemma filter_window_suffix now w1 w2 (l : list SystemSnapshot) :
  w1 <= w2 ->
  StronglySorted (fun a b => timestamp a <= timestamp b) l ->
  filter (fun s => in_window now w1 (timestamp s)) l
    `suffix_of` filter (fun s => in_window now w2 (timestamp s)) l.
Proof.
  intros Hw. induction 1 as [| s l Hl IH Hs]; [exists []; reflexivity |].
  destruct (Z_le_gt_dec (now - w1 * 60) (timestamp s)) as [Hin | Hout].
  - assert (H1 : Forall (fun r => now - w1 * 60 <= timestamp r) (s :: l)).
    { constructor; [exact Hin |]. eapply Forall_impl; [exact Hs |]. cbn. intros; lia. }
    assert (H2 : Forall (fun r => now - w2 * 60 <= timestamp r) (s :: l)).
    { eapply Forall_impl; [exact H1 |]. cbn. intros; lia. }
    rewrite (filter_window_all _ _ _ H1), (filter_window_all _ _ _ H2).
    exists []. reflexivity.
  - rewrite (filter_cons_False _ s l) by (rewrite in_window_iff; lia).
    rewrite filter_cons. destruct (decide _); [apply suffix_cons_r |]; exact IH.
Qed.





Lemma check_tables_spec w catalog tables : forall n,
  match check_tables w n catalog tables with
  | None =>
      (forall i, (i < length tables)%nat -> stmt_fails w (n + i) = false) /\
      Forall (fun tc => exists actual,
                catalog !! tc.1 = Some actual /\ actual <> [] /\
                forall c, c ∈ tc.2 -> c ∈ actual) tables
  | Some DatabaseError => exists i, (i < length tables)%nat /\ stmt_fails w (n + i) = true
  | Some (TableMissing t) =>
      exists cols, (t, cols) ∈ tables /\ default [] (catalog !! t) = []
  | Some (ColumnsMissing t missing) =>
      missing <> ∅ /\
      exists cols actual,
        (t, cols) ∈ tables /\ catalog !! t = Some actual /\
        forall c, c ∈ missing <-> c ∈ cols /\ c ∉ actual
  end.
Proof.
  induction tables as [| [t cols] rest IH]; intros n; cbn -[difference].
  - split; [intros i Hi; lia | constructor].
  - destruct (stmt_fails w n) eqn:Es.
    { exists 0%nat. split; [lia | now rewrite Nat.add_0_r]. }
    destruct (catalog !! t) as [actual |] eqn:Ec; cbn -[difference].
    2: { exists cols. split; [apply list_elem_of_here | now rewrite Ec]. }
    destruct (is_nil actual) eqn:Enil.
    { exists cols. split; [apply list_elem_of_here |].
      rewrite Ec. cbn. destruct actual; [reflexivity | discriminate]. }
    assert (Hactual : actual <> []) by (intros ->; discriminate).
    destruct (decide (cols ∖ list_to_set actual = (∅ : gset string))) as [Hempty | Hmiss].
    + specialize (IH (S n)).
      destruct (check_tables w (S n) catalog rest) as [[t' | t' m |] |].
      * destruct IH as (cols' & Hin & Hd). exists cols'.
        split; [apply list_elem_of_further, Hin | exact Hd].
      * destruct IH as (Hm & cols' & actual' & Hin & Hc & Hiff).
        split; [exact Hm |]. exists cols', actual'.
        split; [apply list_elem_of_further, Hin | split; assumption].
      * destruct IH as (i & Hi & Hf). exists (S i).
        split; [lia | now rewrite Nat.add_succ_r].
      * destruct IH as (Hst & Hall). split.
        -- intros [| i] Hi; [now rewrite Nat.add_0_r |].
           rewrite Nat.add_succ_r. apply Hst. lia.
        -- constructor; [| exact Hall]. exists actual. cbn.
           split; [exact Ec | split; [exact Hactual |]].
           intros c Hc. destruct (decide (c ∈ actual)) as [? | Hn]; [assumption |].
           set_solver.
    + split; [exact Hmiss |]. exists cols, actual.
      split; [apply list_elem_of_here | split; [exact Ec |]].
      intros c. set_solver.
Qed.



(** a system table that lacks only memory_pressure: the error names it *)
Example validate_schema_names_column :
  validate_schema reliable
    (<["system_snapshot"%string :=
         ["id"; "timestamp"; "mem_total_mb"; "mem_used_mb"; "mem_free_mb";
          "mem_compressed_mb"; "swap_used_mb"]%string]> ∅)
  = Some (ColumnsMissing "system_snapshot" {[ "memory_pressure"%string ]}).
Proof. vm_compute. reflexivity. Qed.

(** ** Ranking the processes of one pass *)

Lemma insert_desc_perm key p sorted : insert_desc key p sorted ≡ₚ p :: sorted.
Proof.
  induction sorted as [| q rest IH]; cbn; [reflexivity |].
  destruct (key q <? key p); [reflexivity |].
  rewrite IH. apply perm_swap.
Qed.

Lemma sort_desc_perm key l : sort_desc key l ≡ₚ l.
Proof.
  unfold sort_desc.
  assert (H : forall acc, fold_left (fun acc p => insert_desc key p acc) l acc ≡ₚ acc ++ l).
  { induction l as [| p l IH]; intros acc; cbn; [now rewrite app_nil_r |].
    rewrite IH, insert_desc_perm. apply Permutation_middle. }
  apply (H []).
Qed.

Lemma insert_desc_sorted key p sorted :
  StronglySorted (fun a b => key b <= key a) sorted ->
  StronglySorted (fun a b => key b <= key a) (insert_desc key p sorted).
Proof.
  induction 1 as [| q rest Hrest IH Hq]; cbn.
  - repeat constructor.
  - destruct (Z.ltb_spec (key q) (key p)) as [Hlt | Hge].
    + constructor; [constructor; assumption |].
      constructor; [lia |].
      eapply Forall_impl; [exact Hq |]. cbn. intros; lia.
    + constructor; [exact IH |].
      rewrite insert_desc_perm. constructor; [exact Hge | exact Hq].
Qed.

Lemma sort_desc_sorted key l :
  StronglySorted (fun a b => key b <= key a) (sort_desc key l).
Proof.
  unfold sort_desc.
  assert (H : forall acc,
             StronglySorted (fun a b => key b <= key a) acc ->
             StronglySorted (fun a b => key b <= key a)
               (fold_left (fun acc p => insert_desc key p acc) l acc)).
  { induction l as [| p l IH]; intros acc Hacc; cbn; [exact Hacc |].
    apply IH, insert_desc_sorted, Hacc. }
  apply H. constructor.
Qed.

Lemma slice_to_take {A} (n : Z) (l : list A) :
  slice_to n l =
    take (if (0 <=? n)%Z then Z.to_nat n else (length l - Z.to_nat (- n))%nat) l.
Proof. unfold slice_to. now destruct (0 <=? n)%Z. Qed.

(** X11: [get_process_metrics] returns the processes with the largest
    resident memory, largest first: the rows it returns and the rows it
    leaves out are together the rows collected, no row left out is larger
    than a row returned, and the number returned is TOP_N_PROCESSES when that
    many were collected (a negative TOP_N_PROCESSES drops that many rows from
    the end instead). *)
Theorem get_process_metrics_top (TOP_N_PROCESSES now : Z) (items : list proc_item)
    (frontmost_app : option string) :
  let collected := collect_rows now frontmost_app items in
  let top := get_process_metrics TOP_N_PROCESSES now items frontmost_app in
  StronglySorted (fun a b => rss_mb b <= rss_mb a) top /\
  length top = (if 0 <=? TOP_N_PROCESSES
                then Nat.min (Z.to_nat TOP_N_PROCESSES) (length collected)
                else (length collected - Z.to_nat (- TOP_N_PROCESSES))%nat) /\
  exists dropped,
    collected ≡ₚ top ++ dropped /\
    forall kept d, kept ∈ top -> d ∈ dropped -> rss_mb d <= rss_mb kept.
Proof.
  intros collected top. subst top. unfold get_process_metrics. fold collected.
  rewrite slice_to_take.
  pose proof (sort_desc_perm rss_mb collected) as Hperm.
  pose proof (sort_desc_sorted rss_mb collected) as Hsorted.
  set (sorted := sort_desc rss_mb collected) in *.
  assert (Hlen : length sorted = length collected) by now rewrite Hperm.
  rewrite Hlen.
  set (n := (if 0 <=? TOP_N_PROCESSES then Z.to_nat TOP_N_PROCESSES
             else (length collected - Z.to_nat (- TOP_N_PROCESSES))%nat)).
  rewrite <- (take_drop n sorted) in Hsorted.
  split; [apply StronglySorted_app_1_l in Hsorted; exact Hsorted |].
  split.
  - rewrite length_take, Hlen. unfold n. destruct (0 <=? TOP_N_PROCESSES); lia.
  - exists (drop n sorted). split; [now rewrite take_drop |].
    intros kept d Hk Hd.
    exact (StronglySorted_app_1_elem_of _ _ _ _ _ Hsorted Hk Hd).
Qed.

Lemma collect_rows_elem now frontmost_app items p :
  p ∈ collect_rows now frontmost_app items <->
  exists info mem_info,
    Answered info ∈ items /\ info_memory_info info = Some mem_info /\
    p = process_row now frontmost_app info mem_info.
Proof.
  induction items as [| item items IH]; cbn.
  - split; [intros H; inversion H | intros (? & ? & H & _); inversion H].
  - destruct item as [info |].
    + destruct (info_memory_info info) as [mem |] eqn:Em.
      * rewrite elem_of_cons, IH. split.
        -- intros [-> | (i & m & Hin & Hm & ->)].
           ++ exists info, mem. split; [apply list_elem_of_here | auto].
           ++ exists i, m. split; [apply list_elem_of_further, Hin | auto].
        -- intros (i & m & Hin & Hm & ->).
           apply elem_of_cons in Hin as [[= ->] | Hin].
           ++ left. rewrite Em in Hm. now injection Hm as ->.
           ++ right. eauto.
      * rewrite IH. split.
        -- intros (i & m & Hin & Hm & ->). exists i, m.
           split; [apply list_elem_of_further, Hin | auto].
        -- intros (i & m & Hin & Hm & ->).
           apply elem_of_cons in Hin as [[= ->] | Hin]; [congruence | eauto].
    + rewrite IH. split.
      * intros (i & m & Hin & Hm & ->). exists i, m.
        split; [apply list_elem_of_further, Hin | auto].
      * intros (i & m & Hin & Hm & ->).
        apply elem_of_cons in Hin as [Habs | Hin]; [discriminate | eauto].
Qed.

(** X12: every row [get_process_metrics] returns comes from a process that
    answered with its memory figures; it carries the time of the pass, a
    name that is not empty, and a foreground flag that is 0 or 1, and the
    flag is 1 only for a process whose name is the frontmost application's. *)
Theorem get_process_metrics_rows (TOP_N_PROCESSES now : Z) (items : list proc_item)
    (frontmost_app : option string) (p : ProcessSnapshot) :
  p ∈ get_process_metrics TOP_N_PROCESSES now items frontmost_app ->
  (exists info mem_info,
      Answered info ∈ items /\ info_memory_info info = Some mem_info /\
      pid p = info_pid info /\ rss_mb p = rss mem_info / (1024 * 1024) /\
      vms_mb p = vms mem_info / (1024 * 1024)) /\
  p_timestamp p = now /\
  process_name p <> ""%string /\
  (is_foreground p = 0 \/ is_foreground p = 1) /\
  (is_foreground p = 1 -> frontmost_app = Some (process_name p)).
Proof.
  intros Hp. unfold get_process_metrics in Hp. rewrite slice_to_take in Hp.
  apply elem_of_take in Hp as (i & Hi & _).
  apply list_elem_of_lookup_2 in Hi.
  rewrite sort_desc_perm in Hi.
  apply collect_rows_elem in Hi as (info & mem & Hitem & Hmem & ->).
  split; [exists info, mem; repeat split; assumption |].
  split; [reflexivity |].
  unfold process_row. cbn.
  split; [| split].
  - destruct (info_name info) as [name |]; cbn; [| discriminate].
    destruct (String.eqb_spec name ""); cbn; [discriminate | assumption].
  - destruct (_ && _); auto.
  - destruct (truthy frontmost_app) eqn:Et; cbn; [| discriminate].
    destruct (bool_decide (info_name info = frontmost_app)) eqn:Ed; [| discriminate].
    intros _. apply bool_decide_eq_true in Ed.
    destruct frontmost_app as [app |]; [| discriminate]. cbn in Et.
    rewrite Ed. cbn. rewrite Et. reflexivity.
Qed.

(** a process that went away and the front application *)
Lemma get_process_metrics_rows_witness :
  let p := {| p_timestamp := 1700000000; pid := 412; process_name := "Safari";
              rss_mb := 200; vms_mb := 400; shared_mb := 0; cpu_percent := (5 # 2)%Q;
              is_foreground := 1 |} in
  p ∈ get_process_metrics 25 1700000000 [Gone; sample_process] (Some "Safari"%string) /\
  p_timestamp p = 1700000000 /\ process_name p <> ""%string.
Proof.
  intros p.
  assert (Hp : p ∈ get_process_metrics 25 1700000000 [Gone; sample_process]
                     (Some "Safari"%string)) by apply list_elem_of_here.
  split; [exact Hp |].
  destruct (get_process_metrics_rows 25 1700000000 [Gone; sample_process]
              (Some "Safari"%string) p Hp) as (_ & Ht & Hn & _).
  split; assumption.
Defined.

(** ** Terminating a process *)

Lemma can_kill_pid_allowed (h : host) (pid : Z) (why : string) :
  can_kill_pid h pid = Returns (true, why) ->
  why = "ok"%string /\ 1 < pid /\ pid <> getpid h /\
  exists proc name real,
    process_at h pid = Returns proc /\
    t_name proc = Returns name /\ (name ∉ PROTECTED_NAMES) /\
    t_uids_real proc = Returns real /\ (real = 0 -> geteuid h = 0).
Proof.
  unfold can_kill_pid.
  destruct (Z.leb_spec pid 1) as [| Hpid]; [discriminate |].
  destruct (Z.eqb_spec pid (getpid h)) as [| Hself]; [discriminate |].
  destruct (process_at h pid) as [proc | []] eqn:Eproc; try discriminate.
  destruct (t_name proc) as [name | []] eqn:Ename; try discriminate.
  destruct (decide (name ∈ PROTECTED_NAMES)) as [| Hname]; [discriminate |].
  destruct (t_uids_real proc) as [real | []] eqn:Ereal; try discriminate.
  destruct (Z.eqb_spec real 0) as [Hreal | Hreal];
    destruct (Z.eqb_spec (geteuid h) 0) as [He | He]; cbn; try discriminate;
    intros [= <-]; (split; [reflexivity |]); (split; [exact Hpid |]);
    (split; [exact Hself |]); exists proc, name, real;
    (split; [reflexivity |]); (split; [exact Ename |]); (split; [exact Hname |]);
    (split; [exact Ereal |]); intros; lia.
Qed.

(** X13: [can_kill_pid] allows a pid exactly when it is above 1, is not the
    caller's own, names a process that exists and answers with a name outside
    PROTECTED_NAMES and with its owner, and that owner is not root unless the
    caller is root; the reason given is then "ok". *)
Theorem can_kill_pid_allows (h : host) (pid : Z) (why : string) :
  can_kill_pid h pid = Returns (true, why) <->
  why = "ok"%string /\ 1 < pid /\ pid <> getpid h /\
  exists proc name real,
    process_at h pid = Returns proc /\
    t_name proc = Returns name /\ (name ∉ PROTECTED_NAMES) /\
    t_uids_real proc = Returns real /\ (real = 0 -> geteuid h = 0).
Proof.
  split; [apply can_kill_pid_allowed |].
  intros (-> & Hpid & Hself & proc & name & real & Hproc & Hname & Hfree & Hreal & Hroot).
  unfold can_kill_pid.
  destruct (Z.leb_spec pid 1); [lia |].
  destruct (Z.eqb_spec pid (getpid h)); [contradiction |].
  rewrite Hproc, Hname.
  destruct (decide (name ∈ PROTECTED_NAMES)); [contradiction |].
  rewrite Hreal.
  destruct (Z.eqb_spec real 0) as [Hz | Hz]; cbn; [| reflexivity].
  rewrite (Hroot Hz). reflexivity.
Qed.


(** asked to end pid 1, and asked to end an ordinary process that then does
    not exit in time *)
Example terminate_pid_samples :
  let proc := {| t_name := Returns "Safari"%string; t_uids_real := Returns 501 |} in
  let h := {| getpid := 4242; geteuid := 501; process_at := fun _ => Returns proc |} in
  let slow := {| found_again := Returns tt; signalled := Returns tt;
                 waited := Throws TimeoutExpired; timeout_text := "3.0" |} in
  terminate_pid h slow 1 true
    = ([], Returns {| ok := false; r_pid := 1; action := "deny";
                      reason := "system process pid <= 1" |}) /\
  terminate_pid h slow 412 false
    = ([SIGTERM], Returns {| ok := false; r_pid := 412; action := "terminate";
                             reason := "process did not exit within 3.0s" |}).
Proof. split; reflexivity. Qed.

(** ** The advisor summary *)

Module FloatBounds.
Local Open Scope Q_scope.

Lemma rne_abs y : Qabs (inject_Z (rne y)) <= Qabs y + 1.
Proof.
  assert (Hlo : inject_Z (Qfloor y) <= inject_Z (rne y)).
  { rewrite <- Zle_Qle. apply rne_floor_le. }
  assert (Hhi : inject_Z (rne y) <= inject_Z (Qfloor y) + 1).
  { change 1 with (inject_Z 1). rewrite <- inject_Z_plus, <- Zle_Qle.
    unfold rne. destruct (Qcompare _ _); [destruct (Z.even _) | |]; lia. }
  pose proof (Qfloor_le y) as Hf.
  pose proof (Qlt_floor y) as Hc.
  rewrite inject_Z_plus in Hc. change (inject_Z 1) with 1 in Hc.
  apply Qabs_case; intros; apply Qabs_case; intros; lra.
Qed.

Lemma Qlog2_le x n : 0 < x -> x <= 2 ^ n -> (Qlog2 x <= n)%Z.
Proof.
  intros Hx Hle.
  destruct (Qlog2_spec x Hx) as [Hlo _].
  destruct (Z_le_gt_dec (Qlog2 x) n) as [| Hgt]; [assumption | exfalso].
  assert (2 ^ (n + 1) <= 2 ^ Qlog2 x) by (apply two_pow_le; lia).
  pose proof (two_pow_lt n (n + 1) ltac:(lia)). lra.
Qed.

(** a quotient within the range of the 64-bit integers rounds to a finite
    float *)
Lemma round_float_finite x : Qabs x <= 2 ^ 63 -> exists v, round_float x = Finite v.
Proof.
  intros Hx. unfold round_float.
  destruct (Qeq_bool x 0) eqn:E0; [eexists; reflexivity |].
  destruct (Qle_bool (2 ^ 1024) (Qabs (round_val x))) eqn:F; [| eexists; reflexivity].
  exfalso. apply Qle_bool_iff in F.
  assert (Hpos : 0 < Qabs x).
  { apply Qeq_bool_neq in E0. pose proof (Qabs_nonneg x).
    destruct (Qlt_le_dec 0 (Qabs x)) as [| Hz]; [assumption |].
    exfalso. apply E0. revert Hz. apply Qabs_case; intros; lra. }
  assert (Hf : (fexp x <= 11)%Z).
  { unfold fexp. pose proof (Qlog2_le (Qabs x) 63 Hpos Hx). lia. }
  pose proof (two_pow_pos (fexp x)) as Hp.
  pose proof (two_pow_le (fexp x) 11 Hf) as Hp11.
  pose proof (two_pow_le 11 63 ltac:(lia)) as H1163.
  pose proof (two_pow_succ 63) as H64. change (63 + 1)%Z with 64%Z in H64.
  pose proof (two_pow_lt 64 1024 ltac:(lia)) as Hbig.
  assert (Hr : Qabs (round_val x) <= Qabs x + 2 ^ fexp x).
  { unfold round_val. rewrite Qabs_Qmult, (Qabs_pos (2 ^ fexp x)) by lra.
    pose proof (rne_abs (x / 2 ^ fexp x)) as Hn.
    assert (Hd : Qabs (x / 2 ^ fexp x) == Qabs x / 2 ^ fexp x).
    { unfold Qdiv. rewrite Qabs_Qmult. rewrite (Qabs_pos (/ 2 ^ fexp x)); [reflexivity |].
      apply Qlt_le_weak, Qinv_lt_0_compat, Hp. }
    rewrite Hd in Hn.
    apply (Qmult_le_compat_r _ _ (2 ^ fexp x)) in Hn; [| lra].
    eapply Qle_trans; [exact Hn |].
    apply Qle_lteq. right. field. lra. }
  revert F Hr Hx Hp Hp11 H1163 H64 Hbig.
  generalize (Qabs (round_val x)) (Qabs x) (2 ^ fexp x) (2 ^ 11) (2 ^ 63) (2 ^ 64) (2 ^ 1024).
  intros. lra.
Qed.

End FloatBounds.
Import FloatBounds.

Lemma py_sum_bound (l : list Z) :
  Forall (fun z => fits_int64 z = true) l ->
  Z.abs (py_sum l) <= Z.of_nat (length l) * 2 ^ 63.
Proof.
  unfold py_sum.
  assert (H : forall acc,
             Forall (fun z => fits_int64 z = true) l ->
             Z.abs (fold_left Z.add l acc) <= Z.abs acc + Z.of_nat (length l) * 2 ^ 63).
  { induction l as [| z l IH]; intros acc Hl; cbn [fold_left length]; [lia |].
    inversion Hl as [| ? ? Hz Hl']; subst.
    specialize (IH (acc + z) Hl').
    unfold fits_int64 in Hz. apply andb_prop in Hz as [Ha Hb].
    apply Z.leb_le in Ha. apply Z.ltb_lt in Hb. lia. }
  intros Hl. specialize (H 0 Hl). lia.
Qed.

Lemma int_truediv_finite (a n : Z) :
  0 < n -> Z.abs a <= n * 2 ^ 63 -> exists q, int_truediv a n = Ok (Finite q).
Proof.
  intros Hn Ha. unfold int_truediv.
  destruct (round_float_finite (inject_Z a / inject_Z n)) as [v ->]; [| eauto].
  assert (Hq : (0 < inject_Z n)%Q) by (change 0%Q with (inject_Z 0); now rewrite <- Zlt_Qlt).
  assert (Hhi : (inject_Z a <= 2 ^ 63 * inject_Z n)%Q).
  { rewrite <- (two_pow_inject 63), <- inject_Z_mult, <- Zle_Qle by lia. lia. }
  assert (Hlo : (- (2 ^ 63 * inject_Z n) <= inject_Z a)%Q).
  { rewrite <- (two_pow_inject 63), <- inject_Z_mult, <- inject_Z_opp, <- Zle_Qle by lia.
    lia. }
  apply Qabs_Qle_condition. split.
  - apply Qle_shift_div_l; [exact Hq |]. lra.
  - apply Qle_shift_div_r; [exact Hq |]. lra.
Qed.

Lemma avg_or_zero_returns (l : list Z) :
  Forall (fun z => fits_int64 z = true) l -> exists n, avg_or_zero l = Ok n.
Proof.
  intros Hl. unfold avg_or_zero.
  destruct l as [| z l']; [eexists; reflexivity |].
  cbn [is_nil].
  destruct (int_truediv_finite (py_sum (z :: l')) (Z.of_nat (length (z :: l'))))
    as [q ->]; [cbn [length]; lia | apply py_sum_bound, Hl |].
  eexists; reflexivity.
Qed.

Lemma trends_of_returns (snapshots : list TrendRow) :
  Forall (fun r => fits_int64 (t_mem_used_mb r) = true /\
                   fits_int64 (t_mem_free_mb r) = true /\
                   fits_int64 (t_mem_compressed_mb r) = true /\
                   fits_int64 (t_swap_used_mb r) = true) snapshots ->
  exists t, trends_of snapshots = Ok t /\ sample_count t = length snapshots.
Proof.
  intros Hfit. unfold trends_of.
  destruct (avg_or_zero_returns (map t_mem_used_mb snapshots)) as [a1 ->].
  { apply Forall_map. eapply Forall_impl; [exact Hfit |]. cbn. tauto. }
  destruct (avg_or_zero_returns (map t_mem_free_mb snapshots)) as [a2 ->].
  { apply Forall_map. eapply Forall_impl; [exact Hfit |]. cbn. tauto. }
  destruct (avg_or_zero_returns (map t_mem_compressed_mb snapshots)) as [a3 ->].
  { apply Forall_map. eapply Forall_impl; [exact Hfit |]. cbn. tauto. }
  destruct (avg_or_zero_returns (map t_swap_used_mb snapshots)) as [a4 ->].
  { apply Forall_map. eapply Forall_impl; [exact Hfit |]. cbn. tauto. }
  eexists. split; reflexivity.
Qed.

Lemma system_binds_fields (s : SystemSnapshot) :
  system_binds s = true ->
  fits_int64 (mem_used_mb s) = true /\ fits_int64 (mem_free_mb s) = true /\
  fits_int64 (mem_compressed_mb s) = true /\ fits_int64 (swap_used_mb s) = true.
Proof.
  unfold system_binds. cbn [forallb]. rewrite !andb_true_iff. tauto.
Qed.

Lemma fetched_rows_fit now window (rows : list SystemSnapshot) :
  Forall (fun s => system_binds s = true) rows ->
  Forall (fun r => fits_int64 (t_mem_used_mb r) = true /\
                   fits_int64 (t_mem_free_mb r) = true /\
                   fits_int64 (t_mem_compressed_mb r) = true /\
                   fits_int64 (t_swap_used_mb r) = true)
    (map trend_row (filter (fun s => in_window now window (timestamp s))
                           (idx_system_timestamp rows))).
Proof.
  intros Hfit. apply Forall_map, Forall_forall. intros s Hs.
  apply list_elem_of_filter in Hs as [_ Hs].
  rewrite idx_system_timestamp_perm in Hs.
  rewrite Forall_forall in Hfit. cbn. apply system_binds_fields, Hfit, Hs.
Qed.

Lemma summary_latest_entry (w1 : io) (db : database) :
  exists v,
    unless_runtime_error
      (found ← fetch_latest_snapshot w1 db; Ok (option_map latest_view found)) = Ok v /\
    (fetch_latest_snapshot w1 db = Raise RuntimeError -> v = None).
Proof.
  unfold fetch_latest_snapshot, query.
  destruct (open_fails w1); [eexists; split; reflexivity |].
  destruct (system_snapshot db); [| eexists; split; reflexivity].
  destruct (stmt_fails w1 0); [eexists; split; reflexivity |].
  eexists; split; [reflexivity | discriminate].
Qed.

Lemma summary_trends_entry (w2 : io) (now : Z) (db : database) (window : Z) :
  stored_fit db ->
  exists v,
    unless_runtime_error
      (snapshots ← fetch_system_snapshots w2 now db window;
       if is_nil snapshots then Ok None
       else t ← trends_of snapshots; Ok (Some t)) = Ok v /\
    (forall t, v = Some t -> (0 < sample_count t)%nat) /\
    (fetch_system_snapshots w2 now db window = Raise RuntimeError -> v = None).
Proof.
  intros [Hsys _]. unfold fetch_system_snapshots, query.
  destruct (open_fails w2);
    [eexists; split; [reflexivity | split; [discriminate | reflexivity]] |].
  destruct (system_snapshot db) as [rows |] eqn:Erows;
    [| eexists; split; [reflexivity | split; [discriminate | reflexivity]]].
  destruct (stmt_fails w2 0);
    [eexists; split; [reflexivity | split; [discriminate | reflexivity]] |].
  cbn [mbind res_bind].
  pose proof (fetched_rows_fit now window rows (Hsys rows eq_refl)) as Hfit.
  destruct (map trend_row _) as [| r rest] eqn:Esn.
  - eexists; split; [reflexivity | split; discriminate].
  - cbn [is_nil].
    destruct (trends_of_returns (r :: rest) Hfit) as (t & -> & Hcount).
    eexists; split; [reflexivity |]. split; [| discriminate].
    intros t' [= <-]. rewrite Hcount. cbn. lia.
Qed.

Lemma summary_top_entry (w3 : io) (now : Z) (db : database) (window : Z) :
  exists v,
    unless_runtime_error
      (processes ← fetch_top_processes w3 now db window 10;
       Ok (Some (map process_view processes))) = Ok v /\
    (length (default [] v) <= 10)%nat /\
    (fetch_top_processes w3 now db window 10 = Raise RuntimeError -> v = None).
Proof.
  unfold fetch_top_processes, query.
  destruct (open_fails w3);
    [eexists; split; [reflexivity | split; [cbn; lia | reflexivity]] |].
  destruct (process_snapshot db) as [rows |];
    [| eexists; split; [reflexivity | split; [cbn; lia | reflexivity]]].
  destruct (stmt_fails w3 0);
    [eexists; split; [reflexivity | split; [cbn; lia | reflexivity]] |].
  eexists; split; [reflexivity |]. split; [| discriminate].
  cbn [default id]. rewrite List.length_map. unfold sql_limit. cbn [Z.ltb Z.compare].
  rewrite length_take. lia.
Qed.



Lemma fold_max_spec (rest : list Z) : forall x,
  let m := fold_left Z.max rest x in
  m ∈ x :: rest /\ Forall (fun v => v <= m) (x :: rest).
Proof.
  induction rest as [| y rest IH]; intros x; cbn.
  - split; [apply list_elem_of_here | repeat constructor; lia].
  - destruct (IH (Z.max x y)) as [Hin Hall]. cbn in Hin, Hall.
    inversion Hall as [| ? ? Hm Hrest]; subst.
    split.
    + apply elem_of_cons in Hin as [Hin | Hin].
      * rewrite Hin. destruct (Z.max_spec x y) as [[_ ->] | [_ ->]].
        -- apply list_elem_of_further, list_elem_of_here.
        -- apply list_elem_of_here.
      * now do 2 apply list_elem_of_further.
    + constructor; [lia |]. constructor; [lia | exact Hrest].
Qed.

Lemma fold_min_spec (rest : list Z) : forall x,
  let m := fold_left Z.min rest x in
  m ∈ x :: rest /\ Forall (fun v => m <= v) (x :: rest).
Proof.
  induction rest as [| y rest IH]; intros x; cbn.
  - split; [apply list_elem_of_here | repeat constructor; lia].
  - destruct (IH (Z.min x y)) as [Hin Hall]. cbn in Hin, Hall.
    inversion Hall as [| ? ? Hm Hrest]; subst.
    split.
    + apply elem_of_cons in Hin as [Hin | Hin].
      * rewrite Hin. destruct (Z.min_spec x y) as [[_ ->] | [_ ->]].
        -- apply list_elem_of_here.
        -- apply list_elem_of_further, list_elem_of_here.
      * now do 2 apply list_elem_of_further.
    + constructor; [lia |]. constructor; [lia | exact Hrest].
Qed.

Lemma max_or_zero_spec (l : list Z) :
  l <> [] -> max_or_zero l ∈ l /\ Forall (fun v => v <= max_or_zero l) l.
Proof. destruct l as [| x rest]; [contradiction |]. intros _. apply fold_max_spec. Qed.

Lemma min_or_zero_spec (l : list Z) :
  l <> [] -> min_or_zero l ∈ l /\ Forall (fun v => min_or_zero l <= v) l.
Proof. destruct l as [| x rest]; [contradiction |]. intros _. apply fold_min_spec. Qed.

Lemma py_sum_between (a b : Z) (l : list Z) :
  Forall (fun v => a <= v <= b) l ->
  Z.of_nat (length l) * a <= py_sum l <= Z.of_nat (length l) * b.
Proof.
  unfold py_sum.
  assert (H : forall acc,
             Forall (fun v => a <= v <= b) l ->
             acc + Z.of_nat (length l) * a <= fold_left Z.add l acc
               <= acc + Z.of_nat (length l) * b).
  { induction l as [| z l IH]; intros acc Hl; cbn [fold_left length]; [lia |].
    inversion Hl as [| ? ? Hz Hl']; subst.
    specialize (IH (acc + z) Hl'). lia. }
  intros Hl. specialize (H 0 Hl). lia.
Qed.

(** rounding keeps a value between two non-negative integers below 2^53 *)
Lemma round_float_between (a b : Z) (x : Q) :
  0 <= a -> b < 2 ^ 53 -> (inject_Z a <= x)%Q -> (x <= inject_Z b)%Q ->
  exists q, round_float x = Finite q /\ (inject_Z a <= q)%Q /\ (q <= inject_Z b)%Q.
Proof.
  intros Ha Hb Hax Hxb.
  assert (Ha0 : (0 <= inject_Z a)%Q) by (change 0%Q with (inject_Z 0); now rewrite <- Zle_Qle).
  assert (Hab : a <= b) by (rewrite Zle_Qle; lra).
  destruct (Qlt_le_dec 0 x) as [Hx | Hx].
  - assert (Hb0 : 0 < b).
    { rewrite Zlt_Qlt. change (inject_Z 0) with 0%Q. lra. }
    assert (Hrb : representable (inject_Z b)).
    { exists b, 0. split; [lia |]. split; [lia |]. change (2 ^ 0)%Q with 1%Q. lra. }
    pose proof (round_val_upper (inject_Z b) x Hrb Hx Hxb) as Hup.
    assert (Hlo : (inject_Z a <= round_val x)%Q).
    { destruct (Z.eq_dec a 0) as [-> | Hne].
      - unfold round_val. change (inject_Z 0) with 0%Q.
        pose proof (two_pow_pos (fexp x)) as Hp.
        assert (0 <= rne (x / 2 ^ fexp x)).
        { apply rne_lower. change (inject_Z 0) with 0%Q.
          apply Qle_shift_div_l; [exact Hp | lra]. }
        assert ((0 <= inject_Z (rne (x / 2 ^ fexp x)))%Q).
        { change 0%Q with (inject_Z 0). now rewrite <- Zle_Qle. }
        apply Qmult_le_0_compat; lra.
      - assert (Hra : representable (inject_Z a)).
        { exists a, 0. split; [lia |]. split; [lia |]. change (2 ^ 0)%Q with 1%Q. lra. }
        apply round_val_lower; [exact Hra | | exact Hax].
        change 0%Q with (inject_Z 0). rewrite <- Zlt_Qlt. lia. }
    exists (round_val x). split; [| split; assumption].
    apply (round_float_pos x (round_val x) Hx); [reflexivity | | lra].
    eapply Qle_lt_trans; [exact Hup |].
    eapply Qlt_trans; [| apply (two_pow_lt 53 1024); lia].
    rewrite <- (two_pow_inject 53), <- Zlt_Qlt by lia. exact Hb.
  - exists 0%Q. split; [| split; lra].
    unfold round_float.
    destruct (Qeq_bool x 0) eqn:E; [reflexivity |].
    apply Qeq_bool_neq in E. exfalso. apply E. lra.
Qed.

Lemma avg_or_zero_between (l : list Z) :
  l <> [] -> Forall (fun v => 0 <= v < 2 ^ 53) l ->
  exists q, avg_or_zero l = Ok (Float (Finite q)) /\
            (inject_Z (min_or_zero l) <= q)%Q /\ (q <= inject_Z (max_or_zero l))%Q.
Proof.
  intros Hne Hl. destruct l as [| z rest]; [contradiction |].
  unfold avg_or_zero, int_truediv. cbn [is_nil max_or_zero min_or_zero].
  destruct (fold_max_spec rest z) as [Hmax_in Hmax].
  destruct (fold_min_spec rest z) as [Hmin_in Hmin].
  cbn zeta in *.
  set (hi := fold_left Z.max rest z) in *. set (lo := fold_left Z.min rest z) in *.
  rewrite Forall_forall in Hl.
  pose proof (Hl _ Hmax_in) as Hhi. pose proof (Hl _ Hmin_in) as Hlo. cbn beta in Hhi, Hlo.
  assert (Hbetween : Forall (fun v => lo <= v <= hi) (z :: rest)).
  { rewrite Forall_forall in Hmax, Hmin. apply Forall_forall. intros v Hv.
    split; [apply Hmin, Hv | apply Hmax, Hv]. }
  apply py_sum_between in Hbetween.
  set (n := Z.of_nat (length (z :: rest))) in *.
  assert (Hn : 0 < n) by (unfold n; cbn [length]; lia).
  assert (Hq : (0 < inject_Z n)%Q) by (change 0%Q with (inject_Z 0); now rewrite <- Zlt_Qlt).
  destruct (round_float_between lo hi (inject_Z (py_sum (z :: rest)) / inject_Z n))
    as (q & -> & Hq1 & Hq2); [lia | lia | | |].
  - apply Qle_shift_div_l; [exact Hq |].
    rewrite <- inject_Z_mult, <- Zle_Qle. lia.
  - apply Qle_shift_div_r; [exact Hq |].
    rewrite <- inject_Z_mult, <- Zle_Qle. lia.
  - exists q. split; [reflexivity | split; assumption].
Qed.

Lemma trends_of_fields (snapshots : list TrendRow) (t : Trends) :
  trends_of snapshots = Ok t ->
  avg_or_zero (map t_mem_used_mb snapshots) = Ok (mem_used_avg t) /\
  mem_used_max t = max_or_zero (map t_mem_used_mb snapshots) /\
  mem_used_min t = min_or_zero (map t_mem_used_mb snapshots) /\
  swap_used_max t = max_or_zero (map t_swap_used_mb snapshots) /\
  sample_count t = length snapshots.
Proof.
  unfold trends_of.
  destruct (avg_or_zero (map t_mem_used_mb snapshots)); [| discriminate].
  destruct (avg_or_zero (map t_mem_free_mb snapshots)); [| discriminate].
  destruct (avg_or_zero (map t_mem_compressed_mb snapshots)); [| discriminate].
  destruct (avg_or_zero (map t_swap_used_mb snapshots)); [| discriminate].
  intros [= <-]. cbn. repeat split; reflexivity.
Qed.

(** X16: the trends of the summary are taken over the rows of the window,
    for a window whose bound SQLite computes within 64-bit integers: there
    are none exactly when the window holds no row; otherwise the sample
    count is the number of those rows, the smallest and largest memory in
    use are values of those rows that bound all the others, and for figures
    from 0 up to 2^53 MB the average lies between the two. *)
Theorem build_advisor_summary_trends (w1 w2 w3 : io) (now : Z) (db : database)
    (window : Z) (rows : list SystemSnapshot) :
  stored_fit db ->
  fits_int64 (window * 60) = true -> fits_int64 (now - window * 60) = true ->
  system_snapshot db = Some rows ->
  open_fails w2 = false -> stmt_fails w2 0 = false ->
  let recent := filter (fun s => now - window * 60 <= timestamp s) rows in
  Forall (fun s => 0 <= mem_used_mb s < 2 ^ 53) recent ->
  exists s,
    build_advisor_summary w1 w2 w3 now db window = Ok s /\
    match trends s with
    | None => recent = []
    | Some t =>
        sample_count t = length recent /\
        Forall (fun r => mem_used_min t <= mem_used_mb r <= mem_used_max t) recent /\
        (exists r, r ∈ recent /\ mem_used_mb r = mem_used_min t) /\
        (exists r, r ∈ recent /\ mem_used_mb r = mem_used_max t) /\
        exists q, mem_used_avg t = Float (Finite q) /\
                  (inject_Z (mem_used_min t) <= q)%Q /\
                  (q <= inject_Z (mem_used_max t))%Q
    end.
Proof.
  intros Hfit _ _ Hrows Ho Hs recent Hrange.
  unfold build_advisor_summary.
  destruct (summary_latest_entry w1 db) as (v1 & -> & _). cbn [mbind res_bind].
  destruct (summary_top_entry w3 now db window) as (v3 & E3 & _).
  unfold fetch_system_snapshots, query. rewrite Ho, Hrows, Hs. cbn [mbind res_bind].
  pose proof (fetched_rows_fit now window rows (proj1 Hfit rows Hrows)) as Hfitrows.
  set (sel := filter (fun s => in_window now window (timestamp s))
                     (idx_system_timestamp rows)) in *.
  assert (Hperm : sel ≡ₚ recent).
  { unfold sel, recent. rewrite idx_system_timestamp_perm.
    erewrite list_filter_iff; [reflexivity |].
    intros s. apply in_window_iff. }
  destruct (trends_of_returns _ Hfitrows) as (t & Et & _).
  destruct (is_nil (map trend_row sel)) eqn:Enil.
  - cbn [mbind res_bind unless_runtime_error]. rewrite E3. cbn [mbind res_bind].
    eexists. split; [reflexivity |]. cbn [trends].
    destruct sel; [| discriminate]. now apply Permutation_nil in Hperm.
  - rewrite Et. cbn [mbind res_bind unless_runtime_error]. rewrite E3. cbn [mbind res_bind].
    eexists. split; [reflexivity |]. cbn [trends].
    apply trends_of_fields in Et as (Eavg & Emax & Emin & _ & Ecount).
    rewrite List.map_map in Eavg, Emax, Emin.
    change (map (fun x => t_mem_used_mb (trend_row x)) sel)
      with (map mem_used_mb sel) in Eavg, Emax, Emin.
    set (used := map mem_used_mb sel) in *.
    assert (Hne : used <> []) by (unfold used; destruct sel; [discriminate | discriminate]).
    assert (Hused : forall v, v ∈ used <-> exists r, r ∈ recent /\ mem_used_mb r = v).
    { intros v. unfold used. rewrite list_elem_of_In, in_map_iff. split.
      - intros (r & <- & Hr). exists r. split; [| reflexivity].
        rewrite <- Hperm. now apply list_elem_of_In.
      - intros (r & Hr & <-). exists r. split; [reflexivity |].
        apply list_elem_of_In. now rewrite Hperm. }
    destruct (max_or_zero_spec used Hne) as [Hmax_in Hmax].
    destruct (min_or_zero_spec used Hne) as [Hmin_in Hmin].
    rewrite Forall_forall in Hmax, Hmin. rewrite Forall_forall in Hrange.
    split; [| split; [| split; [| split]]].
    + rewrite Ecount, List.length_map. now apply Permutation_length.
    + apply Forall_forall. intros r Hr. rewrite Emax, Emin.
      assert (Hv : mem_used_mb r ∈ used) by (apply Hused; eauto).
      split; [apply Hmin, Hv | apply Hmax, Hv].
    + rewrite Emin. apply Hused, Hmin_in.
    + rewrite Emax. apply Hused, Hmax_in.
    + destruct (avg_or_zero_between used Hne) as (q & Eq & Hq1 & Hq2).
      { apply Forall_forall. intros v Hv. apply Hused in Hv as (r & Hr & <-).
        apply Hrange, Hr. }
      rewrite Eq in Eavg. injection Eavg as <-.
      exists q. rewrite Emax, Emin. split; [reflexivity | split; assumption].
Qed.

(** three samples, two of them inside a window of five minutes *)
Lemma build_advisor_summary_trends_witness :
  let row := fun ts used => {| timestamp := ts; mem_total_mb := 16384; mem_used_mb := used;
                               mem_free_mb := 4000; mem_compressed_mb := 1000;
                               swap_used_mb := 0; memory_pressure := "low" |} in
  let rows := [row 900 7000; row 600 9000; row 800 7500] in
  let db := {| system_snapshot := Some rows; process_snapshot := Some [] |} in
  exists s t,
    build_advisor_summary reliable reliable reliable 1000 db 5 = Ok s /\
    trends s = Some t /\ sample_count t = 2%nat /\
    mem_used_min t = 7000 /\ mem_used_max t = 7500.
Proof.
  intros row rows db.
  assert (Hfit : stored_fit db).
  { split; intros l [= <-]; repeat constructor. }
  assert (Hrange : Forall (fun s => 0 <= mem_used_mb s < 2 ^ 53)
                     (filter (fun s => 1000 - 5 * 60 <= timestamp s) rows)).
  { repeat constructor; cbn; lia. }
  destruct (build_advisor_summary_trends reliable reliable reliable 1000 db 5 rows
              Hfit eq_refl eq_refl eq_refl eq_refl eq_refl Hrange) as (s & Hs & Ht).
  exists s.
  assert (Es : build_advisor_summary reliable reliable reliable 1000 db 5 = Ok s)
    by exact Hs.
  vm_compute in Hs. injection Hs as <-.
  eexists. split; [exact Es |]. repeat split; reflexivity.
Defined.

(** ** More on the sample *)

Lemma int_lt_float_mono (n n' : Z) (x : pyfloat) :
  n' <= n -> int_lt_float n x = true -> int_lt_float n' x = true.
Proof.
  intros Hle. destruct x as [q | s |]; cbn; [| trivial | trivial].
  rewrite !Qlt_bool_iff. intros Hlt.
  eapply Qle_lt_trans; [| exact Hlt]. now rewrite <- Zle_Qle.
Qed.

(** X17: the pressure is one of "low", "medium" and "high", and it never
    goes down when less memory is free or more swap is in use, the total
    being the same. *)
Theorem pressure_of_monotone (free_mb free_mb' mem_total_mb swap_used_mb swap_used_mb' : Z)
    (p : string) :
  free_mb' <= free_mb -> swap_used_mb <= swap_used_mb' ->
  pressure_of free_mb mem_total_mb swap_used_mb = Ok p ->
  (p = "low" \/ p = "medium" \/ p = "high")%string /\
  exists p', pressure_of free_mb' mem_total_mb swap_used_mb' = Ok p' /\
             (pressure_level p <= pressure_level p')%nat.
Proof.
  intros Hfree Hswap. unfold pressure_of.
  destruct (fmul_int lit_0_05 mem_total_mb) as [m5 |]; [| discriminate].
  cbn [mbind res_bind].
  pose proof (int_lt_float_mono free_mb free_mb' m5 Hfree) as H5.
  destruct (int_lt_float free_mb m5) eqn:E5.
  - rewrite (H5 eq_refl). cbn. intros [= <-].
    split; [auto |]. eexists; split; [reflexivity |]. cbn. lia.
  - destruct (Z.ltb_spec 256 swap_used_mb) as [Hs | Hs]; cbn [orb].
    + intros [= <-]. split; [auto |].
      destruct (Z.ltb_spec 256 swap_used_mb'); [| lia]. rewrite orb_true_r.
      eexists; split; [reflexivity |]. cbn. lia.
    + destruct (fmul_int lit_0_10 mem_total_mb) as [m10 |]; [| discriminate].
      cbn [mbind res_bind].
      pose proof (int_lt_float_mono free_mb free_mb' m10 Hfree) as H10.
      assert (Hp' : forall q, exists p',
                 (if int_lt_float free_mb' m5 || (256 <? swap_used_mb')
                  then mret "high"%string
                  else if q : bool then mret "medium"%string else mret "low"%string)
                 = (Ok p' : res string) /\
                 (pressure_level (if q then "medium" else "low")
                  <= pressure_level p')%nat).
      { intros q. destruct (_ || _); [eexists; split; [reflexivity |]; destruct q; cbn; lia |].
        destruct q; eexists; split; try reflexivity; cbn; lia. }
      destruct (int_lt_float free_mb m10) eqn:E10.
      * rewrite (H10 eq_refl). cbn [orb]. intros [= <-]. split; [auto |].
        destruct (Hp' true) as (p' & Ep' & Hl). exists p'. split; [exact Ep' |].
        exact Hl.
      * destruct (Z.ltb_spec 0 swap_used_mb) as [Hz | Hz]; cbn [orb].
        -- intros [= <-]. split; [auto |].
           destruct (Z.ltb_spec 0 swap_used_mb'); [| lia]. rewrite orb_true_r.
           destruct (Hp' true) as (p' & Ep' & Hl). exists p'. split; [exact Ep' |].
           exact Hl.
        -- intros [= <-]. split; [auto |].
           destruct (int_lt_float free_mb' m5 || (256 <? swap_used_mb'));
             [eexists; split; [reflexivity |]; cbn; lia |].
           destruct (_ || _); eexists; split; try reflexivity; cbn; lia.
Qed.

(** from 500 MB free of 1000 and no swap to 40 MB free and 300 MB of swap *)
Lemma pressure_of_monotone_witness :
  exists p', pressure_of 40 1000 300 = Ok p' /\
             (pressure_level "low" <= pressure_level p')%nat.
Proof.
  apply (pressure_of_monotone 500 40 1000 0 300 "low"); [lia | lia | reflexivity].
Defined.

Lemma parse_vm_stat_line_entry (pages : gmap string Z) (line : string) :
  parse_vm_stat_line pages line =
    match line_entry line with
    | Some (k, n) => <[k := n]> pages
    | None => pages
    end.
Proof.
  unfold parse_vm_stat_line, line_entry.
  destruct (contains ":" line); [| reflexivity].
  destruct (split_on ":" line) as [| k [| v [| ? ?]]]; try reflexivity.
  destruct (py_int (rstrip_dot (strip v))); reflexivity.
Qed.

Lemma fold_parse_vm_stat_line (lines : list string) (k : string) :
  forall pages : gmap string Z,
    fold_left parse_vm_stat_line lines pages !! k =
      match last (filter (fun e => e.1 = k) (omap line_entry lines)) with
      | Some e => Some e.2
      | None => pages !! k
      end.
Proof.
  induction lines as [| line lines IH]; intros pages; [reflexivity |].
  cbn [fold_left]. rewrite IH, parse_vm_stat_line_entry.
  change (omap line_entry (line :: lines))
    with (match line_entry line with
          | Some e => e :: omap line_entry lines
          | None => omap line_entry lines
          end).
  destruct (line_entry line) as [[k' n] |]; [| reflexivity].
  rewrite filter_cons. cbn [fst]. destruct (decide (k' = k)) as [-> | Hne].
  - rewrite last_cons, lookup_insert_eq.
    destruct (last _); reflexivity.
  - rewrite lookup_insert_ne by exact Hne. reflexivity.
Qed.


(** the free pages reported twice, a heading, and a count that is no
    number *)
Example parse_vm_stat_sample :
  match parse_vm_stat
          (Exited 0 "Mach Virtual Memory Statistics:
Pages free: 100.
Pages active: many.
Pages free:   250.
") with
  | Ok pages => pages !! "Pages free"%string = Some 250 /\
                pages !! "Pages active"%string = None /\
                pages !! "Mach Virtual Memory Statistics"%string = None
  | Raise _ => False
  end.
Proof. vm_compute. repeat split. Qed.

(** ** Reading numbers back *)

Lemma chars_app (a b : string) : chars (a +:+ b) = (chars a ++ chars b)%list.
Proof.
  unfold chars. induction a as [| c a IH]; [reflexivity |].
  change (list_ascii_of_string (String c a +:+ b)) with (c :: list_ascii_of_string (a +:+ b)).
  now rewrite IH.
Qed.

(** the digits of an unsigned decimal scan back to its value *)
Lemma scan_uint (d : Decimal.uint) : forall after_digit,
  exists ds,
    scan_digits after_digit (chars (NilEmpty.string_of_uint d)) = (ds, []) /\
    (d <> Decimal.Nil -> ds <> []) /\
    Forall (fun c => is_digit c = true) (chars (NilEmpty.string_of_uint d)) /\
    (forall acc, fold_left (fun acc d => 10 * acc + d) ds (Z.pos acc)
                 = Z.pos (Pos.of_uint_acc d acc)) /\
    fold_left (fun acc d => 10 * acc + d) ds 0 = Z.of_N (Pos.of_uint d).
Proof.
  induction d as [| d IH | d IH | d IH | d IH | d IH | d IH | d IH | d IH | d IH | d IH];
    intros after_digit.
  { exists []. split; [reflexivity |]. split; [congruence |]. split; [apply List.Forall_nil |].
    split; [intros acc |]; reflexivity. }
  all: destruct (IH true) as (ds & Escan & _ & Hdigits & Hacc & Hzero).
  all: cbn [NilEmpty.string_of_uint chars list_ascii_of_string].
  all: change (list_ascii_of_string (NilEmpty.string_of_uint d))
         with (chars (NilEmpty.string_of_uint d)).
  all: cbn [scan_digits]; cbv beta iota delta [is_digit].
  all: cbn [N_of_ascii N_of_digits N.add N.mul N.leb N.compare Pos.compare Pos.compare_cont
            Pos.add Pos.mul Pos.succ andb].
  all: rewrite Escan.
  all: eexists; split; [reflexivity |]; split; [discriminate |]; split;
         [constructor; [reflexivity | exact Hdigits] |]; split.
  all: try (intros acc; cbn [fold_left Pos.of_uint_acc]; rewrite <- Hacc; f_equal;
            cbv [digit_val]; cbn; lia).
  all: cbn [fold_left Pos.of_uint Z.of_N]; try exact Hzero.
  all: rewrite <- Hacc; f_equal.
Qed.

Lemma digit_not_space (c : ascii) : is_digit c = true -> is_space c = false.
Proof.
  unfold is_digit, is_space. cbv zeta.
  destruct (N.leb_spec 48 (N_of_ascii c)); [| discriminate].
  destruct (N.leb_spec (N_of_ascii c) 57); [| discriminate]. intros _.
  destruct (N.leb_spec 9 (N_of_ascii c)); destruct (N.leb_spec (N_of_ascii c) 13);
    destruct (N.leb_spec 28 (N_of_ascii c)); destruct (N.leb_spec (N_of_ascii c) 32);
    try reflexivity; lia.
Qed.

Lemma uint_chars (d : Decimal.uint) :
  d <> Decimal.Nil ->
  NilZero.string_of_uint d = NilEmpty.string_of_uint d /\
  scan_sign (chars (NilEmpty.string_of_uint d))
    = (false, chars (NilEmpty.string_of_uint d)) /\
  solid (chars (NilEmpty.string_of_uint d)).
Proof.
  intros Hd.
  destruct (scan_uint d false) as (ds & _ & _ & Hdigits & _).
  assert (Hsolid : solid (chars (NilEmpty.string_of_uint d))).
  { split; [destruct d; [congruence | ..]; discriminate |].
    eapply Forall_impl; [exact Hdigits |]. apply digit_not_space. }
  destruct d; [congruence | ..]; repeat split; try reflexivity; apply Hsolid.
Qed.

Lemma decimal_solid (n : Z) : solid (chars (decimal n)).
Proof.
  unfold decimal. destruct n as [| p | p]; cbn [Z.to_int NilZero.string_of_int].
  - split; [discriminate | repeat constructor].
  - destruct (uint_chars (Pos.to_uint p) (DecimalPos.Unsigned.to_uint_nonnil p))
      as (-> & _ & H). exact H.
  - destruct (uint_chars (Pos.to_uint p) (DecimalPos.Unsigned.to_uint_nonnil p))
      as (-> & _ & [_ H]).
    split; [discriminate |]. constructor; [reflexivity | exact H].
Qed.

(** [int(str(n))] is [n] *)
Lemma py_int_decimal (n : Z) : py_int (decimal n) = Ok n.
Proof.
  unfold py_int.
  rewrite <- (str_chars (decimal n)), (strip_solid _ (decimal_solid n)), chars_str.
  unfold decimal. destruct n as [| p | p]; cbn [Z.to_int NilZero.string_of_int].
  - reflexivity.
  - destruct (uint_chars (Pos.to_uint p) (DecimalPos.Unsigned.to_uint_nonnil p))
      as (-> & -> & _).
    destruct (scan_uint (Pos.to_uint p) false) as (ds & -> & Hne & _ & _ & Hval).
    specialize (Hne (DecimalPos.Unsigned.to_uint_nonnil p)).
    destruct ds as [| d ds]; [congruence |]. cbn [is_nil orb negb].
    unfold digits_value. rewrite Hval, DecimalPos.Unsigned.of_to. reflexivity.
  - destruct (uint_chars (Pos.to_uint p) (DecimalPos.Unsigned.to_uint_nonnil p))
      as (-> & _ & _).
    change (chars (String "-" (NilEmpty.string_of_uint (Pos.to_uint p))))
      with ("-"%char :: chars (NilEmpty.string_of_uint (Pos.to_uint p))).
    cbn [scan_sign].
    destruct (scan_uint (Pos.to_uint p) false) as (ds & -> & Hne & _ & _ & Hval).
    specialize (Hne (DecimalPos.Unsigned.to_uint_nonnil p)).
    destruct ds as [| d ds]; [congruence |]. cbn [is_nil orb negb].
    unfold digits_value. rewrite Hval, DecimalPos.Unsigned.of_to. reflexivity.
Qed.

Lemma split_ws_go_run (cs : list ascii) : forall tok rest,
  Forall (fun c => is_space c = false) cs ->
  split_ws_go tok (cs ++ rest) = split_ws_go (rev cs ++ tok) rest.
Proof.
  induction cs as [| c cs IH]; intros tok rest Hcs; [reflexivity |].
  inversion Hcs as [| ? ? Hc Hcs']; subst.
  cbn [app split_ws_go rev]. rewrite Hc, IH by exact Hcs'.
  now rewrite <- app_assoc.
Qed.

Lemma split_ws_go_token (cs rest : list ascii) (c : ascii) :
  solid cs -> is_space c = true ->
  split_ws_go [] (cs ++ c :: rest) = str cs :: split_ws_go [] rest.
Proof.
  intros [Hne Hcs] Hc. rewrite split_ws_go_run by exact Hcs.
  cbn [split_ws_go]. rewrite Hc, app_nil_r.
  destruct (rev cs) as [| a tok] eqn:E.
  - apply (f_equal (@List.length ascii)) in E. rewrite length_rev in E.
    destruct cs; [congruence | discriminate].
  - rewrite <- E, rev_involutive. reflexivity.
Qed.

Lemma split_ws_go_space (a b : list ascii) (c : ascii) : forall tok,
  is_space c = true ->
  split_ws_go tok (a ++ c :: b) = (split_ws_go tok (a ++ [c]) ++ split_ws_go [] b)%list.
Proof.
  induction a as [| x a IH]; intros tok Hc; cbn [app split_ws_go].
  - rewrite Hc. destruct tok; reflexivity.
  - destruct (is_space x); [| apply IH, Hc].
    destruct tok; [apply IH, Hc |]. cbn [app]. f_equal. apply IH, Hc.
Qed.

Lemma is_prefix_app (p a b : list ascii) :
  is_prefix p a = true -> is_prefix p (a ++ b) = true.
Proof.
  revert a. induction p as [| x p IH]; intros a; [reflexivity |].
  destruct a as [| y a]; [discriminate |]. cbn [is_prefix app].
  destruct (Ascii.eqb x y); [apply IH | discriminate].
Qed.

Lemma has_sub_app (p a b : list ascii) :
  has_sub p a = true -> has_sub p (a ++ b) = true.
Proof.
  induction a as [| y a IH].
  - cbn [has_sub app]. rewrite orb_false_r. intros H.
    destruct p; [destruct b; reflexivity | discriminate].
  - cbn [has_sub]. intros H. apply orb_true_iff in H as [H | H].
    + change (has_sub p ((y :: a) ++ b))
        with (is_prefix p ((y :: a) ++ b) || has_sub p (a ++ b)).
      now rewrite (is_prefix_app p (y :: a) b H).
    + change (has_sub p ((y :: a) ++ b))
        with (is_prefix p ((y :: a) ++ b) || has_sub p (a ++ b)).
      rewrite (IH H). apply orb_true_r.
Qed.

Lemma vm_stat_header_chars (n : Z) :
  chars (vm_stat_header n) =
    (chars "Mach Virtual Memory Statistics: (page size of"
       ++ " "%char :: (chars (decimal n) ++ " "%char :: chars "bytes)"))%list.
Proof.
  unfold vm_stat_header. rewrite !chars_app.
  change (chars "Mach Virtual Memory Statistics: (page size of ")
    with (chars "Mach Virtual Memory Statistics: (page size of" ++ [" "%char])%list.
  rewrite <- app_assoc. reflexivity.
Qed.

Lemma vm_stat_header_parts (n : Z) :
  contains "page size of" (vm_stat_header n) = true /\
  split_ws (vm_stat_header n) =
    (["Mach"; "Virtual"; "Memory"; "Statistics:"; "(page"; "size"]%string
       ++ "of"%string :: decimal n :: ["bytes)"%string])%list.
Proof.
  unfold contains, split_ws. rewrite vm_stat_header_chars. split.
  - apply has_sub_app. vm_compute. reflexivity.
  - rewrite (split_ws_go_space _ _ " "%char [] eq_refl).
    rewrite (split_ws_go_token (chars (decimal n)) _ " "%char (decimal_solid n) eq_refl).
    rewrite str_chars.
    change (split_ws_go [] (chars "Mach Virtual Memory Statistics: (page size of" ++ [" "%char]))
      with ["Mach"; "Virtual"; "Memory"; "Statistics:"; "(page"; "size"; "of"]%string.
    reflexivity.
Qed.



Lemma run_command_ok (o : cmd_outcome) (text : string) :
  run_command o = Ok text -> exists out, o = Exited 0 out /\ text = strip out.
Proof.
  destruct o as [| rc out]; cbn; [discriminate |].
  destruct (Z.eqb_spec rc 0) as [-> |]; [| discriminate].
  intros [= <-]. eauto.
Qed.

(** X20: a snapshot comes out of [get_system_metrics] only when all four
    commands exit with 0; it carries the clock reading, the total memory
    printed by sysctl in whole MiB and the swap figure parsed from sysctl,
    and its pressure is the heuristic applied to the free, total and swap
    figures it stores. *)
Theorem get_system_metrics_snapshot (env : system_probe) (s : SystemSnapshot) :
  get_system_metrics env = Ok s ->
  (exists memsize page_stat pages_stat swapusage bytes,
      hw_memsize env = Exited 0 memsize /\
      vm_stat_for_page_size env = Exited 0 page_stat /\
      vm_stat_for_pages env = Exited 0 pages_stat /\
      vm_swapusage env = Exited 0 swapusage /\
      py_int (strip memsize) = Ok bytes /\
      mem_total_mb s = bytes / (1024 * 1024) /\
      parse_swap_used_mb (strip swapusage) = Ok (swap_used_mb s)) /\
  timestamp s = clock env /\
  pressure_of (mem_free_mb s) (mem_total_mb s) (swap_used_mb s) = Ok (memory_pressure s).
Proof.
  unfold get_system_metrics. intros H.
  destruct (run_command (hw_memsize env)) as [memsize |] eqn:E1; [| discriminate].
  cbn [mbind res_bind] in H.
  destruct (py_int memsize) as [bytes |] eqn:E2; [| discriminate].
  cbn [mbind res_bind] in H.
  destruct (get_page_size (vm_stat_for_page_size env)) as [page_size |] eqn:E3;
    [| discriminate].
  cbn [mbind res_bind] in H.
  destruct (parse_vm_stat (vm_stat_for_pages env)) as [pages |] eqn:E4; [| discriminate].
  cbn [mbind res_bind] in H.
  unfold system_metrics_of in H.
  destruct (run_command (vm_swapusage env)) as [swap_output |] eqn:E5; [| discriminate].
  cbn [mbind res_bind] in H.
  destruct (parse_swap_used_mb swap_output) as [swap |] eqn:E6; [| discriminate].
  cbn [mbind res_bind] in H.
  destruct (pressure_of _ _ swap) as [pressure |] eqn:E7; [| discriminate].
  injection H as <-. cbn.
  apply run_command_ok in E1 as (o1 & Ho1 & ->).
  apply run_command_ok in E5 as (o4 & Ho4 & ->).
  unfold get_page_size in E3.
  destruct (run_command (vm_stat_for_page_size env)) as [t2 |] eqn:E3'; [| discriminate].
  apply run_command_ok in E3' as (o2 & Ho2 & _).
  unfold parse_vm_stat in E4.
  destruct (run_command (vm_stat_for_pages env)) as [t3 |] eqn:E4'; [| discriminate].
  apply run_command_ok in E4' as (o3 & Ho3 & _).
  split; [| split; [reflexivity | exact E7]].
  exists o1, o2, o3, o4, bytes. repeat split; assumption.
Qed.

(** a host of 16 GiB with pages of 16384 bytes *)
Lemma get_system_metrics_snapshot_witness :
  exists s, get_system_metrics sample_probe = Ok s /\
            timestamp s = 1700000000 /\
            pressure_of (mem_free_mb s) (mem_total_mb s) (swap_used_mb s)
              = Ok (memory_pressure s).
Proof.
  eexists. split; [vm_compute; reflexivity |].
  refine (proj2 (get_system_metrics_snapshot sample_probe _ _)).
  vm_compute. reflexivity.
Defined.

(** ** Reading the page counts back *)

Lemma decimal_digits (n : Z) :
  0 <= n ->
  chars (decimal n) <> [] /\ Forall (fun c => is_digit c = true) (chars (decimal n)).
Proof.
  intros Hn. split; [apply decimal_solid |].
  unfold decimal. destruct n as [| p | p]; [| | lia]; cbn [Z.to_int NilZero.string_of_int].
  - repeat constructor.
  - destruct (uint_chars (Pos.to_uint p) (DecimalPos.Unsigned.to_uint_nonnil p))
      as (-> & _ & _).
    destruct (scan_uint (Pos.to_uint p) false) as (ds & _ & _ & H & _). exact H.
Qed.

Lemma has_sub_char (c : ascii) (a b : list ascii) : has_sub [c] (a ++ c :: b) = true.
Proof.
  induction a as [| y a IH].
  - cbn. now rewrite Ascii.eqb_refl.
  - change (has_sub [c] ((y :: a) ++ c :: b))
      with (is_prefix [c] ((y :: a) ++ c :: b) || has_sub [c] (a ++ c :: b)).
    rewrite IH. apply orb_true_r.
Qed.

Lemma split_on_go_run (sep : ascii) (a : list ascii) : forall tok rest,
  Forall (fun c => c <> sep) a ->
  split_on_go sep tok (a ++ rest) = split_on_go sep (rev a ++ tok) rest.
Proof.
  induction a as [| c a IH]; intros tok rest Ha; [reflexivity |].
  inversion Ha as [| ? ? Hc Ha']; subst.
  cbn [app split_on_go rev].
  destruct (Ascii.eqb_spec c sep); [contradiction |].
  rewrite IH by exact Ha'. now rewrite <- app_assoc.
Qed.

Lemma split_on_two (sep : ascii) (a b : list ascii) :
  Forall (fun c => c <> sep) a -> Forall (fun c => c <> sep) b ->
  split_on sep (str (a ++ sep :: b)) = [str a; str b].
Proof.
  intros Ha Hb. unfold split_on. rewrite chars_str.
  rewrite split_on_go_run by exact Ha. cbn [split_on_go].
  rewrite Ascii.eqb_refl, app_nil_r, rev_involutive. f_equal.
  rewrite <- (app_nil_r b) at 1. rewrite split_on_go_run by exact Hb.
  cbn [split_on_go]. now rewrite app_nil_r, rev_involutive.
Qed.

Lemma drop_while_all (p : ascii -> bool) (a b : list ascii) :
  Forall (fun c => p c = true) a -> drop_while p (a ++ b) = drop_while p b.
Proof.
  induction 1 as [| c a Hc _ IH]; [reflexivity |]. cbn [app drop_while]. now rewrite Hc.
Qed.

Lemma strip_padding (padding : nat) (cs : list ascii) :
  solid cs -> strip (str (repeat " "%char padding ++ cs)) = str cs.
Proof.
  intros Hcs. transitivity (strip (str cs)); [| now apply strip_solid].
  unfold strip. rewrite !chars_str.
  rewrite drop_while_all; [reflexivity |].
  apply Forall_forall. intros c Hc. apply list_elem_of_In, repeat_spec in Hc. now subst.
Qed.

Lemma drop_while_one (p : ascii -> bool) (c : ascii) (b : list ascii) :
  p c = true -> drop_while p (c :: b) = drop_while p b.
Proof. intros H. cbn. now rewrite H. Qed.

Lemma rstrip_dot_digits (digits : list ascii) :
  digits <> [] -> Forall (fun c => is_digit c = true) digits ->
  rstrip_dot (str (digits ++ ["."%char])) = str digits.
Proof.
  intros Hne Hd. unfold rstrip_dot, rstrip_chars. rewrite chars_str.
  rewrite rev_app_distr. cbn [rev app]. rewrite drop_while_one by reflexivity.
  assert (Hr : Forall (fun c => is_digit c = true) (rev digits)) by now apply Forall_rev.
  destruct (rev digits) as [| d ds] eqn:E.
  - apply (f_equal (@List.length ascii)) in E. rewrite length_rev in E.
    destruct digits; [congruence | discriminate].
  - inversion Hr as [| ? ? Hdigit _]; subst.
    cbn [drop_while].
    destruct (Ascii.eqb_spec "."%char d) as [<- | _]; [discriminate Hdigit |].
    rewrite <- E, rev_involutive. reflexivity.
Qed.

Lemma digit_not_colon (c : ascii) : is_digit c = true -> c <> ":"%char.
Proof. intros H ->. discriminate H. Qed.

Lemma line_entry_vm_stat_line (label : string) (padding : nat) (n : Z) :
  plain_label label -> 0 <= n ->
  line_entry (vm_stat_line label padding n) = Some (label, n).
Proof.
  intros [Hstrip Hcolon] Hn.
  destruct (decimal_digits n Hn) as [Hne Hdigits].
  set (value := (repeat " "%char padding ++ chars (decimal n) ++ ["."%char])%list).
  assert (Hline : vm_stat_line label padding n = str (chars label ++ ":"%char :: value)).
  { unfold vm_stat_line, value.
    rewrite <- (str_chars (_ +:+ _)). f_equal.
    rewrite !chars_app, chars_str. reflexivity. }
  assert (Hvalue : Forall (fun c => c <> ":"%char) value).
  { unfold value. rewrite !Forall_app. repeat split.
    - apply Forall_forall. intros c Hc. apply list_elem_of_In, repeat_spec in Hc.
      now subst.
    - eapply Forall_impl; [exact Hdigits |]. apply digit_not_colon.
    - repeat constructor. discriminate. }
  unfold line_entry. rewrite Hline.
  unfold contains. rewrite chars_str.
  change (chars ":") with [":"%char]. rewrite has_sub_char.
  rewrite (split_on_two ":"%char (chars label) value Hcolon Hvalue).
  rewrite str_chars, Hstrip.
  unfold value. rewrite strip_padding.
  - rewrite (rstrip_dot_digits _ Hne Hdigits), str_chars, py_int_decimal. reflexivity.
  - split; [destruct (chars (decimal n)); [congruence | discriminate] |].
    apply Forall_app. split; [| repeat constructor].
    eapply Forall_impl; [exact Hdigits |]. apply digit_not_space.
Qed.

Lemma fold_parse_vm_stat_line_other (lines : list string) (k : string) :
  Forall (fun line => forall v, line_entry line <> Some (k, v)) lines ->
  forall pages : gmap string Z,
    fold_left parse_vm_stat_line lines pages !! k = pages !! k.
Proof.
  induction 1 as [| line lines Hline _ IH]; intros pages; [reflexivity |].
  cbn [fold_left]. rewrite IH, parse_vm_stat_line_entry.
  destruct (line_entry line) as [[k' v] |] eqn:E; [| reflexivity].
  apply lookup_insert_ne. intros ->. exact (Hline v eq_refl).
Qed.



(** ** The schema the store creates and the schema the readers expect *)

(** X22: the tables [init_db] creates are the tables [validate_schema] asks
    for, column by column: over a database whose tables come from [init_db],
    validation on a storage engine that does not fail passes exactly when
    both tables exist, and so it passes after every [init_db] that
    returned. *)
Theorem validate_schema_after_init_db :
  (forall db : database,
      validate_schema reliable (table_info db) = None <->
      is_Some (system_snapshot db) /\ is_Some (process_snapshot db)) /\
  (forall (w : io) (db db' : database),
      init_db w db = (db', Ok tt) ->
      validate_schema reliable (table_info db') = None).
Proof.
  assert (H : forall db : database,
             validate_schema reliable (table_info db) = None <->
             is_Some (system_snapshot db) /\ is_Some (process_snapshot db)).
  { intros [[sys |] [proc |]]; unfold table_info; cbn [system_snapshot process_snapshot].
    - split; [intros _; split; eexists; reflexivity |]. intros _. vm_compute. reflexivity.
    - split; [vm_compute; discriminate |]. intros [_ [? [=]]].
    - split; [vm_compute; discriminate |]. intros [[? [=]] _].
    - split; [vm_compute; discriminate |]. intros [[? [=]] _]. }
  split; [exact H |].
  intros w db db' Hinit. apply H.
  destruct (init_db_result w db) as [E | [E | [E | E]]]; rewrite E in Hinit;
    try discriminate.
  injection Hinit as <-. destruct db as [[sys |] [proc |]]; cbn; split; eexists; reflexivity.
Qed.

(** a database without the process table does not pass *)
Example validate_schema_names_table :
  validate_schema reliable
    (table_info {| system_snapshot := Some []; process_snapshot := None |})
    = Some (TableMissing "process_snapshot").
Proof. vm_compute. reflexivity. Qed.
